(** * HRMS front-end: candidate intake, pipeline actions, gateway and session

    A shallow embedding of the parts of the HRMS browser front-end that the
    specification makes claims about:

    - [js/utils.js]   : [isValidFileType], [isValidFileSize];
    - [js/api.js]     : [request], [handleResponse], the [CONFIG] constants;
    - [js/auth.js]    : [getUser], [refreshToken], [hasPermission];
    - the HR module   : [parseFilename], [handleFiles], [handleCVUpload],
                        [loadCandidatesByStage], the stage submit handlers,
                        [getStatusBadge], [handleCandidateSearch],
                        [handleRequirementFilter], the rejection modal.

    Conventions of the embedding.

    - A JavaScript string is a [string]: a sequence of code units, each an
      [ascii] read as a code unit in the range 0..255 (Basic Latin and
      Latin-1).  Code units above 255 are outside the model.
    - Module-level [let] variables become fields of a state record that is
      passed explicitly; what a handler does to the outside world (remote
      calls, toasts, renders) is returned as a list of events, in order.
    - An [await]ed remote call takes its outcome from an explicit script of
      outcomes, consumed in call order.
    - A [throw] is the [Throw] constructor of a result type. *)

From Stdlib Require Import String Ascii List ZArith Bool Lia Arith DecimalString.
Import ListNotations.

Local Open Scope string_scope.
Local Open Scope list_scope.

#[local] Set Warnings "-register-all".

(** ** JavaScript string primitives *)

Module JSString.

(** Code unit of a character. *)
Definition code (c : ascii) : nat := nat_of_ascii c.

(** [\d] of a JavaScript regular expression: the ten ASCII digits. *)
Definition isDigit (c : ascii) : bool :=
  (48 <=? code c)%nat && (code c <=? 57)%nat.

(** White space and line terminators removed by [String.prototype.trim],
    restricted to code units below 256: TAB, LF, VT, FF, CR, SP, NBSP. *)
Definition isSpace (c : ascii) : bool :=
  ((9 <=? code c)%nat && (code c <=? 13)%nat)
  || (code c =? 32)%nat || (code c =? 160)%nat.

(** [String.prototype.toLowerCase] on one code unit below 256:
    A..Z and the Latin-1 capitals (all of U+00C0..U+00DE but U+00D7). *)
Definition lowerChar (c : ascii) : ascii :=
  let n := code c in
  if ((65 <=? n)%nat && (n <=? 90)%nat)
     || ((192 <=? n)%nat && (n <=? 222)%nat && negb (n =? 215)%nat)
  then ascii_of_nat (n + 32)
  else c.

Fixpoint toLowerCase (s : string) : string :=
  match s with
  | EmptyString => EmptyString
  | String c r => String (lowerChar c) (toLowerCase r)
  end.

Fixpoint all (p : ascii -> bool) (s : string) : bool :=
  match s with
  | EmptyString => true
  | String c r => p c && all p r
  end.

Definition isEmpty (s : string) : bool :=
  match s with EmptyString => true | _ => false end.

(** [s.startsWith(t)]. *)
Fixpoint startsWith (t s : string) : bool :=
  match t, s with
  | EmptyString, _ => true
  | String a t', String b s' => Ascii.eqb a b && startsWith t' s'
  | String _ _, EmptyString => false
  end.

(** [s.includes(t)]: [t] occurs in [s] at some position. *)
Fixpoint includes (s t : string) : bool :=
  startsWith t s
  || match s with
     | EmptyString => false
     | String _ r => includes r t
     end.

(** [s.split(sep)] for a one-character separator.  The result is never
    empty: the empty string splits into one empty segment. *)
Fixpoint split (sep : ascii) (s : string) : list string :=
  match s with
  | EmptyString => [EmptyString]
  | String c r =>
      if Ascii.eqb c sep then EmptyString :: split sep r
      else match split sep r with
           | h :: t => String c h :: t
           | [] => [String c EmptyString]
           end
  end.

(** [parts.join(sep)]. *)
Fixpoint join (sep : string) (parts : list string) : string :=
  match parts with
  | [] => EmptyString
  | [p] => p
  | p :: rest => (p ++ sep ++ join sep rest)%string
  end.

(** [parts.pop()] on a non-empty array: its last element. *)
Definition pop (parts : list string) : string := last parts EmptyString.

Fixpoint trimStart (s : string) : string :=
  match s with
  | EmptyString => EmptyString
  | String c r => if isSpace c then trimStart r else s
  end.

Fixpoint trimEnd (s : string) : string :=
  match s with
  | EmptyString => EmptyString
  | String c r =>
      let r' := trimEnd r in
      if isSpace c && isEmpty r' then EmptyString else String c r'
  end.

(** [s.trim()]. *)
Definition trim (s : string) : string := trimEnd (trimStart s).

(** [s.replace(/\.[^.]+$/, '')]: the leftmost position at which a dot is
    followed by one or more non-dot characters up to the end of the input
    is where the string is cut; without such a position the string is
    returned unchanged. *)
Fixpoint stripExtension (s : string) : string :=
  match s with
  | EmptyString => EmptyString
  | String c r =>
      if Ascii.eqb c "." && negb (isEmpty r)
         && all (fun d => negb (Ascii.eqb d ".")) r
      then EmptyString
      else String c (stripExtension r)
  end.

(** [/^\d{10}$/.test(s)]. *)
Definition isTenDigits (s : string) : bool :=
  (String.length s =? 10)%nat && all isDigit s.

(** [t] occurs in [s] up to the case of letters. *)
Definition ciSubstring (t s : string) : Prop :=
  exists pre mid post,
    s = (pre ++ mid ++ post)%string /\ toLowerCase mid = toLowerCase t.

(** A string that does not begin with white space. *)
Definition headed (s : string) : Prop :=
  match s with
  | EmptyString => True
  | String c _ => isSpace c = false
  end.

(** *** Scalars and their text *)

(** [Number.isSafeInteger(n)]: the integers below 2^53 in magnitude, which
    a number holds exactly. *)
Definition isSafeInteger (n : Z) : bool :=
  (Z.abs n <? 9007199254740992)%Z.

(** The primitive values handed to the functions that print them.  The
    numbers among them are the safe integers: those are the numbers whose
    text is their plain decimal notation (a number past 2^53 is printed
    with the digits of its nearest double only, and from 10^21 on with an
    exponent). *)
Inductive Scalar : Type :=
| SUndefined
| SNull
| SBool (b : bool)
| SNum (n : Z) (safe : isSafeInteger n = true)
| SStr (s : string).

(** Decimal notation of an integer: a minus sign for a negative one, then
    the digits without leading zeros. *)
Definition decimal (n : Z) : string :=
  DecimalString.NilZero.string_of_int (Z.to_int n).

(** [String(v)]. *)
Definition toText (v : Scalar) : string :=
  match v with
  | SUndefined => "undefined"
  | SNull => "null"
  | SBool true => "true"
  | SBool false => "false"
  | SNum n _ => decimal n
  | SStr s => s
  end.

(** [s.replace(/p/g, '')] for a one-character pattern: the characters that
    satisfy [p], in order. *)
Fixpoint keep (p : ascii -> bool) (s : string) : string :=
  match s with
  | EmptyString => EmptyString
  | String c r => if p c then String c (keep p r) else keep p r
  end.

(** [s.slice(0, n)] and [s.slice(n)] for [n] not negative. *)
Fixpoint take (n : nat) (s : string) : string :=
  match n, s with
  | S n', String c r => String c (take n' r)
  | _, _ => EmptyString
  end.

Fixpoint drop (n : nat) (s : string) : string :=
  match n, s with
  | S n', String _ r => drop n' r
  | _, _ => s
  end.

(** [\w] of a regular expression. *)
Definition isWord (c : ascii) : bool :=
  ((65 <=? code c)%nat && (code c <=? 90)%nat)
  || ((97 <=? code c)%nat && (code c <=? 122)%nat)
  || isDigit c || Ascii.eqb c "_".

End JSString.

(** ** [CONFIG] (js/api.js) *)

Module CONFIG.

Definition ROLES_ADMIN : string := "admin".
Definition ROLES_EA : string := "ea".
Definition ROLES_HR : string := "hr".

Definition CANDIDATE_STAGES : list string :=
  [ "Shortlisting"; "Telephonic"; "Owner Discussion"; "Schedule Interview";
    "Walk-in"; "HR Interview"; "Tests"; "Final Review"; "Selected";
    "Rejected" ].

Definition REJECTION_TAGS : list string :=
  [ "Shortlisting"; "On Call Conversation"; "Owner Rejected before Walk-in";
    "No Show for Interview"; "HR Interview Failed"; "Test Failed";
    "Document Verification Failed" ].

(** 5 MB. *)
Definition MAX_FILE_SIZE : Z := 5 * 1024 * 1024.

Definition ALLOWED_CV_EXTENSIONS : list string := [".pdf"; ".doc"; ".docx"].


End CONFIG.

(** ** [Utils] (js/utils.js) *)

Module Utils.

Import JSString.

(** [allowedExtensions.includes(ext)] on an array of strings. *)
Definition arrayIncludes (l : list string) (x : string) : bool :=
  existsb (String.eqb x) l.

Definition isValidFileType (filename : string)
           (allowedExtensions : list string) : bool :=
  let ext := ("." ++ toLowerCase (pop (split "." filename)))%string in
  arrayIncludes allowedExtensions ext.

Definition isValidFileSize (fileSize : Z) : bool :=
  (fileSize <=? CONFIG.MAX_FILE_SIZE)%Z.

(** *** More of the utilities *)

(** [formatPhone(phone)]. *)
Definition formatPhone (phone : string) : string :=
  if isEmpty phone then EmptyString
  else
    let cleaned := keep isDigit phone in
    if (String.length cleaned =? 10)%nat
    then (take 5 cleaned ++ "-" ++ drop 5 cleaned)%string
    else phone.

(** [isValidPhone(phone)]: [/^[6-9]\d{9}$/] on the digits of [phone]. *)
Definition isValidPhone (phone : string) : bool :=
  let cleaned := keep isDigit phone in
  (String.length cleaned =? 10)%nat
  && match cleaned with
     | String c _ => (54 <=? code c)%nat && (code c <=? 57)%nat
     | EmptyString => false
     end.

(** The characters [/[^\w\s-]/g] removes are the others. *)
Definition slugKept (c : ascii) : bool :=
  isWord c || isSpace c || Ascii.eqb c "-".

(** The characters of [/[\s_-]+/g]. *)
Definition slugSeparator (c : ascii) : bool :=
  isSpace c || Ascii.eqb c "_" || Ascii.eqb c "-".

(** [s.replace(/[\s_-]+/g, '-')]: every run of separators becomes one
    hyphen; [inRun] tells that the character before was a separator. *)
Fixpoint collapseRuns (inRun : bool) (s : string) : string :=
  match s with
  | EmptyString => EmptyString
  | String c r =>
      if slugSeparator c
      then (if inRun then collapseRuns true r
            else String "-" (collapseRuns true r))
      else String c (collapseRuns false r)
  end.

Definition isHyphen (c : ascii) : bool := Ascii.eqb c "-".

Fixpoint dropLeading (p : ascii -> bool) (s : string) : string :=
  match s with
  | EmptyString => EmptyString
  | String c r => if p c then dropLeading p r else s
  end.

Fixpoint dropTrailing (p : ascii -> bool) (s : string) : string :=
  match s with
  | EmptyString => EmptyString
  | String c r =>
      let r' := dropTrailing p r in
      if p c && isEmpty r' then EmptyString else String c r'
  end.

(** [slugify(text)]. *)
Definition slugify (text : string) : string :=
  if isEmpty text then EmptyString
  else
    dropTrailing isHyphen
      (dropLeading isHyphen
         (collapseRuns false (keep slugKept (toLowerCase text)))).

(** The characters of a slug: small letters, digits and the hyphen. *)
Definition slugChar (c : ascii) : bool :=
  ((97 <=? code c)%nat && (code c <=? 122)%nat) || isDigit c || isHyphen c.

(** No hyphen is followed by a hyphen. *)
Fixpoint noDoubleHyphen (s : string) : bool :=
  match s with
  | String a ((String b _) as r) =>
      negb (isHyphen a && isHyphen b) && noDoubleHyphen r
  | _ => true
  end.

Definition startsWithHyphen (s : string) : bool :=
  match s with
  | String c _ => isHyphen c
  | EmptyString => false
  end.

Fixpoint endsWithHyphen (s : string) : bool :=
  match s with
  | EmptyString => false
  | String c EmptyString => isHyphen c
  | String _ r => endsWithHyphen r
  end.

(** A slug: slug characters only, no hyphen first or last, no two hyphens
    in a row. *)
Definition isSlug (s : string) : bool :=
  all slugChar s && negb (startsWithHyphen s) && negb (endsWithHyphen s)
  && noDoubleHyphen s.

(** The number of leading digits. *)
Fixpoint digitRun (s : string) : nat :=
  match s with
  | String c r => if isDigit c then S (digitRun r) else 0
  | EmptyString => 0
  end.

(** [\B(?=(\d{3})+(?!\d))] before the text [s], [prev] being the character
    before: not a word boundary, and a run of digits follows whose length
    is a multiple of three (and not zero). *)
Definition commaHere (prev : option ascii) (s : string) : bool :=
  match prev with
  | Some p => isWord p
  | None => false
  end
  && (3 <=? digitRun s)%nat && (digitRun s mod 3 =? 0)%nat.

(** [text.replace(/\B(?=(\d{3})+(?!\d))/g, ',')]. *)
Fixpoint groupThousands (prev : option ascii) (s : string) : string :=
  match s with
  | EmptyString => EmptyString
  | String c r =>
      let rest := String c (groupThousands (Some c) r) in
      if commaHere prev s then String "," rest else rest
  end.

(** [formatNumber(num)]. *)
Definition formatNumber (num : Scalar) : string :=
  match num with
  | SNull | SUndefined => EmptyString
  | _ => groupThousands None (toText num)
  end.

(** Digits in groups of three counted from the right, with commas
    between the groups; [fuel] bounds the number of groups. *)
Fixpoint groupsFromRight (fuel : nat) (s : string) : string :=
  match fuel with
  | O => s
  | S fuel' =>
      if (String.length s <=? 3)%nat then s
      else (groupsFromRight fuel' (take (String.length s - 3) s)
            ++ "," ++ drop (String.length s - 3) s)%string
  end.

(** Whether [filterTable] finds the term in a row of cells: in any cell
    when no column is given, else in one of the given columns. *)
Definition rowFound (term : string) (columnIndices : list nat)
           (cells : list string) : bool :=
  if (length columnIndices =? 0)%nat
  then existsb (fun cell => includes (toLowerCase cell) term) cells
  else existsb
         (fun index =>
            match nth_error cells index with
            | Some cell => includes (toLowerCase cell) term
            | None => false
            end)
         columnIndices.

(** [filterTable(tableId, searchTerm, columnIndices)] on the rows of the
    table: for each row, whether it stays displayed. *)
Definition filterTable (searchTerm : string) (columnIndices : list nat)
           (rows : list (list string)) : list bool :=
  let term := toLowerCase searchTerm in
  map (rowFound term columnIndices) rows.

End Utils.

(** ** JavaScript values and property access *)

Module JS.

(** A value is a JSON value (what [JSON.parse] and [response.json()]
    produce), [undefined], or a built-in of the platform reached through a
    prototype chain; [VBuiltin path] names it by the access path, as in
    [["Object.prototype"; "constructor"]].  Numbers are integers. *)
Inductive Value : Type :=
| VUndefined
| VNull
| VBool (b : bool)
| VNum (n : Z)
| VStr (s : string)
| VArr (items : list Value)
| VObj (props : list (string * Value))
| VBuiltin (path : list string).

Inductive Error : Type :=
| TypeError
| SyntaxError
| NetworkError
| Err (message : Value) (status : option Z).

Inductive Result (A : Type) : Type :=
| Ok (a : A)
| Throw (e : Error).
Arguments Ok {A} a.
Arguments Throw {A} e.

Definition bind {A B} (r : Result A) (k : A -> Result B) : Result B :=
  match r with
  | Ok a => k a
  | Throw e => Throw e
  end.

(** ToBoolean. *)
Definition truthy (v : Value) : bool :=
  match v with
  | VUndefined | VNull => false
  | VBool b => b
  | VNum n => negb (n =? 0)%Z
  | VStr s => negb (JSString.isEmpty s)
  | VArr _ | VObj _ | VBuiltin _ => true
  end.

(** [v === true]. *)
Definition isTrue (v : Value) : bool :=
  match v with
  | VBool true => true
  | _ => false
  end.

(** [v === s] for a string [s]. *)
Definition isString (s : string) (v : Value) : bool :=
  match v with
  | VStr t => String.eqb t s
  | _ => false
  end.

(** [a || b]. *)
Definition orElse (a b : Value) : Value := if truthy a then a else b.

(** Own property of an object; of two properties with one key, the one
    written first in [props] is the one the object holds. *)
Fixpoint own (props : list (string * Value)) (k : string) : option Value :=
  match props with
  | [] => None
  | (k', v) :: rest => if String.eqb k' k then Some v else own rest k
  end.

(** The property names every ordinary object inherits from
    [Object.prototype] (ECMAScript, with its Annex B). *)
Definition objectPrototypeNames : list string :=
  [ "constructor"; "hasOwnProperty"; "isPrototypeOf";
    "propertyIsEnumerable"; "toLocaleString"; "toString"; "valueOf";
    "__proto__"; "__defineGetter__"; "__defineSetter__";
    "__lookupGetter__"; "__lookupSetter__" ].

Definition inObjectPrototype (k : string) : bool :=
  existsb (String.eqb k) objectPrototypeNames.

(** [obj[k]] for an object literal or a parsed JSON object: the own
    property, else the member of [Object.prototype] of that name, else
    [undefined]. *)
Definition getObj (props : list (string * Value)) (k : string) : Value :=
  match own props k with
  | Some v => v
  | None =>
      if inObjectPrototype k then VBuiltin ["Object.prototype"; k]
      else VUndefined
  end.

(** A canonical array index: ["0"], or digits without a leading zero. *)
Fixpoint digitsValue (acc : nat) (s : string) : option nat :=
  match s with
  | EmptyString => Some acc
  | String c r =>
      if JSString.isDigit c
      then digitsValue (10 * acc + (JSString.code c - 48)) r
      else None
  end.

Definition parseIndex (k : string) : option nat :=
  match k with
  | EmptyString => None
  | String c r =>
      if Ascii.eqb c "0" then (if JSString.isEmpty r then Some 0 else None)
      else digitsValue 0 k
  end.

(** The kinds of value that reach a prototype of their own before
    [Object.prototype]. *)
Inductive Kind : Type := KBoolean | KNumber | KString | KArray.

Definition kindName (kd : Kind) : string :=
  match kd with
  | KBoolean => "Boolean.prototype"
  | KNumber => "Number.prototype"
  | KString => "String.prototype"
  | KArray => "Array.prototype"
  end.

(** What the platform supplies and the repository does not define: which
    names the prototypes of booleans, numbers, strings and arrays hold, and
    what a property of a built-in is. *)
Record Platform : Type := mkPlatform {
  protoHas : Kind -> string -> bool;
  builtinGet : list string -> string -> Result Value
}.

(** A platform whose prototypes of primitives hold no name of their own
    and whose built-ins have no property. *)
Definition barePlatform : Platform :=
  mkPlatform (fun _ _ => false) (fun _ _ => Ok VUndefined).

Section Get.

Variable P : Platform.

Definition inherited (kd : Kind) (k : string) : Value :=
  if protoHas P kd k then VBuiltin [kindName kd; k]
  else if inObjectPrototype k then VBuiltin ["Object.prototype"; k]
  else VUndefined.

(** [v[k]]. *)
Definition get (v : Value) (k : string) : Result Value :=
  match v with
  | VUndefined | VNull => Throw TypeError
  | VBool _ => Ok (inherited KBoolean k)
  | VNum _ => Ok (inherited KNumber k)
  | VStr s =>
      if String.eqb k "length" then Ok (VNum (Z.of_nat (String.length s)))
      else match parseIndex k with
           | Some i =>
               match String.get i s with
               | Some c => Ok (VStr (String c EmptyString))
               | None => Ok (inherited KString k)
               end
           | None => Ok (inherited KString k)
           end
  | VArr items =>
      if String.eqb k "length" then Ok (VNum (Z.of_nat (length items)))
      else match parseIndex k with
           | Some i =>
               match nth_error items i with
               | Some x => Ok x
               | None => Ok (inherited KArray k)
               end
           | None => Ok (inherited KArray k)
           end
  | VObj props => Ok (getObj props k)
  | VBuiltin path => builtinGet P path k
  end.

End Get.

End JS.

(** ** Form data ([Utils.getFormData], js/utils.js) *)

Module Forms.

Import JS.

(** [obj[k] = v]: the own property is replaced, or added after the
    others. *)
Fixpoint setProp (props : list (string * Value)) (k : string) (v : Value)
  : list (string * Value) :=
  match props with
  | [] => [(k, v)]
  | (k', v') :: rest =>
      if String.eqb k' k then (k, v) :: rest
      else (k', v') :: setProp rest k v
  end.

(** What [data[key]] becomes when [value] arrives: with a truthy
    [data[key]], the array of what it held (itself, if it was no array)
    followed by [value]; else [value]. *)
Definition appendValue (cur : Value) (value : string) : Value :=
  if truthy cur
  then VArr (match cur with
             | VArr items => items
             | _ => [cur]
             end ++ [VStr value])
  else VStr value.

(** The body of the [formData.forEach] of [getFormData]. *)
Definition addEntry (data : list (string * Value))
           (entry : string * string) : list (string * Value) :=
  setProp data (fst entry)
          (appendValue (getObj data (fst entry)) (snd entry)).

(** [getFormData(form)] on the entries of the form, in order; [None] when
    a field is named [__proto__], whose assignment changes the prototype of
    [data], which the objects of the embedding do not have. *)
Definition getFormData (entries : list (string * string))
  : option (list (string * Value)) :=
  if existsb (fun e => String.eqb (fst e) "__proto__") entries then None
  else Some (fold_left addEntry entries []).

(** The values of the field [k] among the entries, in order. *)
Definition valuesOf (k : string) (entries : list (string * string))
  : list string :=
  map snd (filter (fun e => String.eqb (fst e) k) entries).

Fixpoint dropEmpties (vs : list string) : list string :=
  match vs with
  | v :: rest => if JSString.isEmpty v then dropEmpties rest else vs
  | [] => []
  end.

(** What the values of a field add up to: nothing; the one value left
    once the leading empty values are dropped (the empty text when all are
    empty); or the array of the values left. *)
Definition collected (vs : list string) : Value :=
  match vs with
  | [] => VUndefined
  | _ =>
      match dropEmpties vs with
      | [] => VStr EmptyString
      | [v] => VStr v
      | l => VArr (map VStr l)
      end
  end.

End Forms.

(** ** [Auth] (js/auth.js): the session context *)

Module Auth.

Import JS.

(** The [hrms_user] item of local storage, as [getUser] reads it: no item
    (or an empty one), an item [JSON.parse] rejects, or an item that parses
    to a value. *)
Inductive StoredUser : Type :=
| Absent
| Malformed
| Parsed (v : Value).

Record State : Type := mkState {
  currentUser : Value;
  storedUser : StoredUser
}.

(** [getUser()]: the cached user when there is one, else the stored user,
    which is then cached. *)
Definition getUser (st : State) : Value * State :=
  if truthy (currentUser st) then (currentUser st, st)
  else match storedUser st with
       | Absent => (VNull, st)
       | Malformed => (VNull, st)
       | Parsed v => (v, mkState v (storedUser st))
       end.

(** [hasPermission(module, action)]. *)
Definition hasPermission (P : Platform) (module action : string)
           (st : State) : Result bool * State :=
  let (user, st') := getUser st in
  if negb (truthy user) then (Ok false, st')
  else
    (bind (get P user "role") (fun role =>
     if isString CONFIG.ROLES_ADMIN role then Ok true
     else
       bind (get P user "permissions") (fun perms =>
       if truthy perms then
         bind (get P perms module) (fun entry =>
         if truthy entry then
           bind (get P entry action) (fun granted => Ok (isTrue granted))
         else Ok false)
       else Ok false)),
     st').

(** *** More of the session *)

(** The argument of [hasRole]: one role, or an array of roles. *)
Inductive RoleArg : Type :=
| OneRole (role : string)
| AnyRole (roles : list string).

(** [hasRole(role)]. *)
Definition hasRole (P : Platform) (role : RoleArg) (st : State)
  : Result bool * State :=
  let (user, st') := getUser st in
  if negb (truthy user) then (Ok false, st')
  else
    (bind (get P user "role") (fun userRole =>
       match role with
       | AnyRole roles => Ok (existsb (fun r => isString r userRole) roles)
       | OneRole r => Ok (isString r userRole)
       end),
     st').

(** [removeUser()]. *)
Definition removeUser (st : State) : State := mkState VNull Absent.

End Auth.

(** ** [API] (js/api.js): the remote gateway *)

Module API.

Import JS.

Inductive Body : Type :=
| JsonBody (v : Value)      (* content type JSON, body parses to [v] *)
| MalformedJson             (* content type JSON, [response.json()] rejects *)
| TextBody (s : string).    (* any other content type *)

Record Response : Type := mkResponse {
  status : Z;
  body : Body
}.

(** [response.ok]. *)
Definition ok (r : Response) : bool :=
  (200 <=? status r)%Z && (status r <=? 299)%Z.

(** What one call of [fetch] settles to. *)
Inductive FetchOutcome : Type :=
| Unreachable               (* the promise rejects *)
| Responds (r : Response).

Inductive NetEvent : Type :=
| EvFetch (endpoint method : string)   (* [fetch] is called *)
| EvSetToken (token : Value)           (* [Auth.setToken(token)] *)
| EvLogout.                            (* [Auth.logout()] is called *)

(** The remote side is a script of fetch outcomes: the k-th call of
    [fetch] settles to the k-th outcome, and a script that has run out
    stands for a network that no longer answers.  [log] records, oldest
    first, what the gateway did.  Request headers and body serialisation
    are not part of the embedding. *)
Record World : Type := mkWorld {
  script : list FetchOutcome;
  log : list NetEvent
}.

Definition emit (e : NetEvent) (w : World) : World :=
  mkWorld (script w) (log w ++ [e]).

Definition fetch (endpoint method : string) (w : World)
  : FetchOutcome * World :=
  match script w with
  | [] => (Unreachable, emit (EvFetch endpoint method) w)
  | o :: rest => (o, mkWorld rest (log w ++ [EvFetch endpoint method]))
  end.

Definition sessionExpired : Error :=
  Err (VStr "Session expired. Please login again.") None.

(** [Auth.logout()] called and not awaited, as [request] does: what runs
    before the call returns.  [logout] goes straight to
    [API.post('/auth/logout')], whose [request] goes straight to [fetch],
    where it waits; so the logout request is fetched, and the outcome the
    script has for it is taken, before [request] throws.  The rest of
    [logout] (the answer handled by the gateway, the session cleared, the
    redirection to the login page) runs once that outcome has arrived,
    after the caller has got its error. *)
Definition logoutStarted (w : World) : World :=
  snd (fetch "/auth/logout" "POST" (emit EvLogout w)).

Section Gateway.

Variable P : Platform.

(** [handleResponse(response)].  The message of the thrown error is kept
    as the value handed to [new Error]. *)
Definition handleResponse (r : Response) : Result Value :=
  bind (match body r with
        | JsonBody v => Ok v
        | MalformedJson => Throw SyntaxError
        | TextBody s => Ok (VStr s)
        end)
       (fun data =>
          if negb (ok r) then
            bind (get P data "message") (fun m =>
              Throw (Err (orElse m (VStr "An error occurred"))
                         (Some (status r))))
          else Ok data).

(** [Auth.refreshToken()], over the [API.post] it is given: [true] when
    the refresh request returns a result with a truthy [success], whose
    [data.token] is then stored; [false] otherwise, also when anything
    throws. *)
Definition refreshTokenVia
           (post : string -> World -> option (Result Value * World))
           (w : World) : option (bool * World) :=
  match post "/auth/refresh-token" w with
  | None => None
  | Some (Throw _, w1) => Some (false, w1)
  | Some (Ok result, w1) =>
      match get P result "success" with
      | Throw _ => Some (false, w1)
      | Ok success =>
          if truthy success then
            match bind (get P result "data") (fun d => get P d "token") with
            | Throw _ => Some (false, w1)
            | Ok token => Some (true, emit (EvSetToken token) w1)
            end
          else Some (false, w1)
      end
  end.

(** [request(endpoint, options)], up to the point where its promise
    settles; [None] when [fuel] nested refresh requests were not enough.
    The refresh request is itself a [request], so that a 401 on it starts
    a refresh of its own. *)
Fixpoint requestN (fuel : nat) (endpoint method : string) (w : World)
  : option (Result Value * World) :=
  match fuel with
  | O => None
  | S fuel' =>
      match fetch endpoint method w with
      | (Unreachable, w1) => Some (Throw NetworkError, w1)
      | (Responds response, w1) =>
          if (status response =? 401)%Z then
            match refreshTokenVia
                    (fun e => requestN fuel' e "POST") w1 with
            | None => None
            | Some (true, w2) =>
                match fetch endpoint method w2 with
                | (Unreachable, w3) => Some (Throw NetworkError, w3)
                | (Responds retryResponse, w3) =>
                    Some (handleResponse retryResponse, w3)
                end
            | Some (false, w2) =>
                Some (Throw sessionExpired, logoutStarted w2)
            end
          else Some (handleResponse response, w1)
      end
  end.

Definition refreshTokenN (fuel : nat) (w : World) : option (bool * World) :=
  refreshTokenVia (fun e => requestN fuel e "POST") w.

(** [request] against a script.  Every level of the recursion consumes
    one outcome of the script before it recurses, so one more level than
    the script is long is enough fuel.  The depth itself has no bound:
    every 401 on a refresh request nests one level more, and a network
    that answered 401 for ever, which no script describes, would keep the
    source recursing for ever. *)
Definition request (endpoint method : string) (w : World)
  : option (Result Value * World) :=
  requestN (S (length (script w))) endpoint method w.

(** [Auth.refreshToken()] over [request]. *)
Definition refreshToken (w : World) : option (bool * World) :=
  refreshTokenN (S (length (script w))) w.

End Gateway.

(** *** Vocabulary of the properties *)

(** The endpoints fetched among some events, in order. *)
Fixpoint fetches (evs : list NetEvent) : list string :=
  match evs with
  | [] => []
  | EvFetch endpoint _ :: rest => endpoint :: fetches rest
  | _ :: rest => fetches rest
  end.

(** The endpoints the gateway fetches on its own account. *)
Definition authEndpoints : list string :=
  ["/auth/refresh-token"; "/auth/logout"].

(** A 401 answer. *)
Definition unauthorized : Response :=
  mkResponse 401 (JsonBody (VObj [("message", VStr "Unauthorized")])).

(** The answer of the refresh endpoint that grants [token]. *)
Definition refreshGranted (token : Value) : Response :=
  mkResponse 200
    (JsonBody (VObj [("success", VBool true);
                     ("data", VObj [("token", token)])])).

(** *** More of the gateway *)

(** The characters [encodeURIComponent] leaves as they are. *)
Definition unreserved (c : ascii) : bool :=
  ((65 <=? JSString.code c)%nat && (JSString.code c <=? 90)%nat)
  || ((97 <=? JSString.code c)%nat && (JSString.code c <=? 122)%nat)
  || JSString.isDigit c
  || existsb (Ascii.eqb c)
       ["-"; "_"; "."; "!"; "~"; "*"; "'"; "("; ")"]%char.

Definition hexDigit (n : nat) : ascii :=
  match String.get n "0123456789ABCDEF" with
  | Some c => c
  | None => "0"%char
  end.

(** [%XX] for a byte. *)
Definition percent (byte : nat) : string :=
  String "%" (String (hexDigit (byte / 16))
                     (String (hexDigit (byte mod 16)) EmptyString)).

(** [encodeURIComponent] on one code unit below 256: kept, or the
    percent-escapes of its UTF-8 bytes (one byte below 128, two above). *)
Definition encodeChar (c : ascii) : string :=
  let n := JSString.code c in
  if unreserved c then String c EmptyString
  else if (n <? 128)%nat then percent n
  else (percent (192 + n / 64) ++ percent (128 + n mod 64))%string.

Fixpoint encodeURIComponent (s : string) : string :=
  match s with
  | EmptyString => EmptyString
  | String c r => (encodeChar c ++ encodeURIComponent r)%string
  end.

(** The parameters [get] keeps: those that are neither [undefined] nor
    [null]. *)
Definition retained (param : string * JSString.Scalar) : bool :=
  match snd param with
  | JSString.SUndefined | JSString.SNull => false
  | _ => true
  end.

Definition encodePair (param : string * JSString.Scalar) : string :=
  (encodeURIComponent (fst param) ++ "="
   ++ encodeURIComponent (JSString.toText (snd param)))%string.

(** The [queryString] of [get]. *)
Definition queryString (params : list (string * JSString.Scalar)) : string :=
  JSString.join "&" (map encodePair (filter retained params)).

(** The [url] that [get(endpoint, params)] requests. *)
Definition getUrl (endpoint : string)
           (params : list (string * JSString.Scalar)) : string :=
  if JSString.isEmpty (queryString params) then endpoint
  else (endpoint ++ "?" ++ queryString params)%string.

(** [get(endpoint, params)] (named [apiGet] here, [get] being property
    access). *)
Definition apiGet (P : Platform) (endpoint : string)
           (params : list (string * JSString.Scalar)) (w : World)
  : option (Result Value * World) :=
  request P (getUrl endpoint params) "GET" w.


(** The characters [encodeURIComponent] can produce. *)
Definition urlSafe (c : ascii) : bool := unreserved c || Ascii.eqb c "%".

End API.

(** ** The HR module: intake, stage lists and candidate actions *)

Module HR.

Import JSString.

(** *** Data *)

Record TimelineEntry : Type := mkTimelineEntry {
  action : string;
  timestamp : string;
  by_ : string;
  notes : option string
}.

Record Candidate : Type := mkCandidate {
  id : string;
  name : string;
  mobile : string;
  role : string;
  source : string;
  status : string;
  current_stage : string;
  requirement_id : string;
  timeline : list TimelineEntry
}.

(** A browser [File]: its name, its size in bytes and its content. *)
Record File : Type := mkFile {
  file_name : string;
  file_size : Z;
  file_content : string
}.

(** An entry of [selectedFiles]. *)
Record FileData : Type := mkFileData {
  fd_file : File;
  fd_name : string;
  fd_mobile : string;
  fd_source : string;
  fd_filename : string
}.

(** The object [Utils.getFormData] builds from a form. *)
Definition FormData : Type := list (string * string).

(** The module-level variables.  [rejectionOnSubmit] tells whether
    [openRejectionModal] has installed its handler on the rejection
    form. *)
Record State : Type := mkState {
  candidates : list Candidate;
  selectedCandidateId : option string;
  currentStage : string;
  selectedFiles : list FileData;
  rejectionOnSubmit : bool
}.

Definition initialState : State := mkState [] None "" [] false.

(** The values of the [data-action] attribute that [renderCandidateRow]
    writes. *)
Inductive Action : Type :=
| shortlist | telephonic | owner_discussion | schedule | walkin
| hr_interview | test.

(** Calls of [API.candidates] and [API.requirements]. *)
Inductive ApiCall : Type :=
| requirementsGetAll (statusFilter : string)
| getByStage (stage : string)
| getByRequirement (reqId : string)
| updateTelephonic (cid : option string) (data : FormData)
| updateOwnerDiscussion (cid : option string) (data : FormData)
| scheduleInterview (cid : option string) (data : FormData)
| updateHRInterview (cid : option string) (data : FormData)
| updateTests (cid : option string) (data : FormData)
| reject (cid : option string) (data : FormData)
| uploadCVs (files : list File) (requirement_id : string)
            (candidateData : list (string * string * string)).

(** What an awaited call settles to: it throws, or it returns a response
    whose [data] is a list of candidates (ignored by the callers that do
    not read it). *)
Inductive Outcome : Type :=
| Rejects
| Resolves (data : list Candidate).

Inductive Event : Type :=
| Call (c : ApiCall)
| Toast (message level : string)
| ShowLoadingOverlay (message : string)
| HideLoadingOverlay
| RenderCandidatesTable (rows : list Candidate) (stage : string)
| UpdateFileList (files : list FileData)
| OpenModal (modalId : string)
| CloseModals
| ClearUploadRequirement
| RenderPendingRequirements.

(** The module state, the modals the page holds, the outcomes the remote
    side will give to the coming calls (a script that has run out stands
    for a remote side that fails), and the events so far, oldest first. *)
Record World : Type := mkWorld {
  state : State;
  modals : list string;
  remote : list Outcome;
  trace : list Event
}.

(** *** A state monad over [World] *)

Definition M (A : Type) : Type := World -> A * World.

Definition ret {A} (a : A) : M A := fun w => (a, w).

Definition bind {A B} (m : M A) (k : A -> M B) : M B :=
  fun w => let (a, w') := m w in k a w'.

Declare Scope hr_scope.
Delimit Scope hr_scope with hr.
Notation "x <- m ;; k" := (bind m (fun x => k))
  (at level 61, m at next level, right associativity) : hr_scope.
Notation "m ;; k" := (bind m (fun _ => k))
  (at level 61, right associativity) : hr_scope.
Local Open Scope hr_scope.

Definition emit (e : Event) : M unit :=
  fun w => (tt, mkWorld (state w) (modals w) (remote w) (trace w ++ [e])).

Definition getState : M State := fun w => (state w, w).

Definition putState (s : State) : M unit :=
  fun w => (tt, mkWorld s (modals w) (remote w) (trace w)).

Definition hasModal (modalId : string) : M bool :=
  fun w => (existsb (String.eqb modalId) (modals w), w).

(** [await API...]: the call is issued, then its outcome is known. *)
Definition await (c : ApiCall) : M Outcome :=
  fun w =>
    match remote w with
    | [] => (Rejects,
             mkWorld (state w) (modals w) [] (trace w ++ [Call c]))
    | o :: rest =>
        (o, mkWorld (state w) (modals w) rest (trace w ++ [Call c]))
    end.

Fixpoint forEach {A} (l : list A) (f : A -> M unit) : M unit :=
  match l with
  | [] => ret tt
  | x :: rest => f x ;; forEach rest f
  end.

Definition run {A} (m : M A) (w : World) : World := snd (m w).

(** *** CV upload *)

Record Parsed : Type := mkParsed {
  p_name : string;
  p_mobile : string;
  p_source : string
}.

(** [parseFilename(filename)]: [None] is [{ isValid: false }]. *)
Definition parseFilename (filename : string) : option Parsed :=
  let withoutExt := stripExtension filename in
  let parts := split "_" withoutExt in
  if (length parts <? 3)%nat then None
  else
    let name := trim (nth 0 parts EmptyString) in
    let mobile := trim (nth 1 parts EmptyString) in
    let source := trim (join "_" (skipn 2 parts)) in
    if negb (isTenDigits mobile) then None
    else Some (mkParsed name mobile source).

(** Decimal notation of a number, as a template literal prints it. *)
Definition showNumber (n : Z) : string :=
  DecimalString.NilZero.string_of_int (Z.to_int n).

(** The body of the loop of [handleFiles] for one file: the entry pushed
    to [validFiles], or the message pushed to [errors]. *)
Definition checkFile (file : File) : FileData + string :=
  if negb (Utils.isValidFileType (file_name file)
                                 CONFIG.ALLOWED_CV_EXTENSIONS)
  then inr (file_name file ++ ": Invalid file type")%string
  else if negb (Utils.isValidFileSize (file_size file))
  then inr (file_name file ++ ": File too large (max "
            ++ showNumber (CONFIG.MAX_FILE_SIZE / 1024 / 1024) ++ "MB)")%string
  else match parseFilename (file_name file) with
       | None =>
           inr (file_name file
                ++ ": Invalid format (use Name_Mobile_Source.pdf)")%string
       | Some parsed =>
           inl (mkFileData file (p_name parsed) (p_mobile parsed)
                           (p_source parsed) (file_name file))
       end.

(** The loop of [handleFiles]: [validFiles] and [errors] after it. *)
Definition classify (files : list File) : list FileData * list string :=
  fold_left
    (fun acc file =>
       match checkFile file with
       | inl entry => (fst acc ++ [entry], snd acc)
       | inr err => (fst acc, snd acc ++ [err])
       end)
    files ([], []).

Definition updateFileList : M unit :=
  s <- getState ;; emit (UpdateFileList (selectedFiles s)).

Definition setSelectedFiles (l : list FileData) : M unit :=
  s <- getState ;;
  putState (mkState (candidates s) (selectedCandidateId s) (currentStage s)
                    l (rejectionOnSubmit s)).

(** [handleFiles(files)]. *)
Definition handleFiles (files : list File) : M unit :=
  let (validFiles, errors) := classify files in
  forEach errors (fun err => emit (Toast err "error")) ;;
  s <- getState ;;
  setSelectedFiles (selectedFiles s ++ validFiles) ;;
  updateFileList.

(** [setupCVUpload()]. *)
Definition setupCVUpload : M unit :=
  setSelectedFiles [] ;; updateFileList.

(** [handleCVUpload(e)]; [requirementId] is the value of the
    [#upload-requirement] field. *)
Definition handleCVUpload (requirementId : string) : M unit :=
  s <- getState ;;
  if (length (selectedFiles s) =? 0)%nat then
    emit (Toast "Please select files to upload" "warning")
  else if isEmpty requirementId then
    emit (Toast "Please select a requirement" "warning")
  else
    let n := showNumber (Z.of_nat (length (selectedFiles s))) in
    emit (ShowLoadingOverlay ("Uploading " ++ n ++ " files...")%string) ;;
    let files := map fd_file (selectedFiles s) in
    let candidateData :=
      map (fun f => (fd_name f, fd_mobile f, fd_source f))
          (selectedFiles s) in
    o <- await (uploadCVs files requirementId candidateData) ;;
    match o with
    | Resolves _ =>
        emit (Toast (n ++ " CVs uploaded successfully")%string "success") ;;
        setSelectedFiles [] ;;
        updateFileList ;;
        emit ClearUploadRequirement ;;
        emit HideLoadingOverlay
    | Rejects =>
        emit HideLoadingOverlay ;;
        emit (Toast "Failed to upload CVs" "error")
    end.

(** *** Candidates by stage *)

Definition setCandidates (l : list Candidate) : M unit :=
  s <- getState ;;
  putState (mkState l (selectedCandidateId s) (currentStage s)
                    (selectedFiles s) (rejectionOnSubmit s)).

Definition setSelectedCandidateId (i : option string) : M unit :=
  s <- getState ;;
  putState (mkState (candidates s) i (currentStage s)
                    (selectedFiles s) (rejectionOnSubmit s)).

Definition setCurrentStage (stage : string) : M unit :=
  s <- getState ;;
  putState (mkState (candidates s) (selectedCandidateId s) stage
                    (selectedFiles s) (rejectionOnSubmit s)).

Definition setRejectionOnSubmit (b : bool) : M unit :=
  s <- getState ;;
  putState (mkState (candidates s) (selectedCandidateId s) (currentStage s)
                    (selectedFiles s) b).

(** [loadCandidatesByStage(stage)]. *)
Definition loadCandidatesByStage (stage : string) : M unit :=
  emit (ShowLoadingOverlay ("Loading " ++ stage ++ " candidates...")%string) ;;
  o <- await (getByStage stage) ;;
  match o with
  | Resolves data =>
      setCandidates data ;;
      emit (RenderCandidatesTable data stage) ;;
      emit HideLoadingOverlay
  | Rejects =>
      emit HideLoadingOverlay ;;
      emit (Toast "Failed to load candidates" "error")
  end.

(** [loadRequirements()]; the list of requirements it stores feeds the
    drop-downs only and is not kept by the embedding. *)
Definition loadRequirements : M unit :=
  _ <- await (requirementsGetAll "Approved") ;; ret tt.

(** [loadPendingRequirements()]. *)
Definition loadPendingRequirements : M unit :=
  emit (ShowLoadingOverlay "Loading pending requirements...") ;;
  o <- await (requirementsGetAll "Pending") ;;
  match o with
  | Resolves _ => emit RenderPendingRequirements ;; emit HideLoadingOverlay
  | Rejects =>
      emit HideLoadingOverlay ;;
      emit (Toast "Failed to load pending requirements" "error")
  end.

(** [getHRPage()], from [window.location.pathname]. *)
Definition getHRPage (path : string) : string :=
  if includes path "review" then "review"
  else if includes path "cv-upload" then "cv-upload"
  else if includes path "shortlisting" then "shortlisting"
  else if includes path "telephonic" then "telephonic"
  else if includes path "owner-discussion" then "owner-discussion"
  else if includes path "schedule" then "schedule"
  else if includes path "walk-in" then "walk-ins"
  else if includes path "hr-interview" then "hr-interview"
  else if includes path "tests" then "tests"
  else "review".

(** The [pageLoaders] table of [init]. *)
Definition pageLoaders : list (string * M unit) :=
  [ ("review", loadPendingRequirements);
    ("cv-upload", setupCVUpload);
    ("shortlisting", loadCandidatesByStage "Shortlisting");
    ("telephonic", loadCandidatesByStage "Telephonic");
    ("owner-discussion", loadCandidatesByStage "Owner Discussion");
    ("schedule", loadCandidatesByStage "Schedule Interview");
    ("walk-ins", loadCandidatesByStage "Walk-in");
    ("hr-interview", loadCandidatesByStage "HR Interview");
    ("tests", loadCandidatesByStage "Tests") ].

(** The stage whose candidates the loader of a page asks for. *)
Definition pageStage : list (string * string) :=
  [ ("shortlisting", "Shortlisting");
    ("telephonic", "Telephonic");
    ("owner-discussion", "Owner Discussion");
    ("schedule", "Schedule Interview");
    ("walk-ins", "Walk-in");
    ("hr-interview", "HR Interview");
    ("tests", "Tests") ].

Fixpoint lookup {A} (table : list (string * A)) (k : string) : option A :=
  match table with
  | [] => None
  | (k', a) :: rest => if String.eqb k' k then Some a else lookup rest k
  end.

(** [init()] once the access checks of its first lines have passed. *)
Definition init (pathname : string) : M unit :=
  let page := getHRPage pathname in
  setCurrentStage page ;;
  loadRequirements ;;
  match lookup pageLoaders page with
  | Some loader => loader
  | None => ret tt
  end.

(** *** Status badge *)

(** The [statusClasses] object literal. *)
Definition statusClasses : list (string * JS.Value) :=
  [ ("Pending", JS.VStr "badge-warning");
    ("Shortlisted", JS.VStr "badge-info");
    ("Recommended", JS.VStr "badge-primary");
    ("Approved", JS.VStr "badge-success");
    ("Scheduled", JS.VStr "badge-info");
    ("Confirmed", JS.VStr "badge-success");
    ("Completed", JS.VStr "badge-success");
    ("Rejected", JS.VStr "badge-danger");
    ("No Show", JS.VStr "badge-danger") ].

(** The two holes of the template
    [<span class="badge ${badgeClass}">${status}</span>]. *)
Record Badge : Type := mkBadge {
  badgeClass : JS.Value;
  badgeText : string
}.

(** [getStatusBadge(status)]. *)
Definition getStatusBadge (status : string) : Badge :=
  let badgeClass :=
    JS.orElse (JS.getObj statusClasses status) (JS.VStr "badge-secondary") in
  mkBadge badgeClass status.

(** *** Candidate actions *)





(** [closeModals()]. *)
Definition closeModals : M unit :=
  emit CloseModals ;; setSelectedCandidateId None.

(** The common shape of the five stage submit handlers; [formValid] is
    the answer of [Utils.validateForm], [formData] the content of the
    form. *)
Definition submitStage (overlay : string)
           (call : option string -> FormData -> ApiCall)
           (done stage failed : string)
           (formValid : bool) (formData : FormData) : M unit :=
  if negb formValid then ret tt
  else
    emit (ShowLoadingOverlay overlay) ;;
    s <- getState ;;
    o <- await (call (selectedCandidateId s) formData) ;;
    match o with
    | Resolves _ =>
        emit (Toast done "success") ;;
        closeModals ;;
        loadCandidatesByStage stage
    | Rejects =>
        emit HideLoadingOverlay ;;
        emit (Toast failed "error")
    end.

Definition handleTelephonicSubmit : bool -> FormData -> M unit :=
  submitStage "Updating telephonic status..." updateTelephonic
              "Telephonic status updated" "Telephonic"
              "Failed to update status".

Definition handleOwnerDiscussionSubmit : bool -> FormData -> M unit :=
  submitStage "Recording owner decision..." updateOwnerDiscussion
              "Owner decision recorded" "Owner Discussion"
              "Failed to record decision".

Definition handleScheduleSubmit : bool -> FormData -> M unit :=
  submitStage "Scheduling interview..." scheduleInterview
              "Interview scheduled" "Schedule Interview"
              "Failed to schedule interview".

Definition handleHRInterviewSubmit : bool -> FormData -> M unit :=
  submitStage "Recording HR interview result..." updateHRInterview
              "HR interview result recorded" "HR Interview"
              "Failed to record result".

Definition handleTestSubmit : bool -> FormData -> M unit :=
  submitStage "Recording test result..." updateTests
              "Test result recorded" "Tests"
              "Failed to record result".






(** *** Search and filter *)

(** The predicate of the [filter] in [handleCandidateSearch]. *)
Definition matchesSearch (searchTerm : string) (c : Candidate) : bool :=
  includes (toLowerCase (name c)) searchTerm
  || includes (mobile c) searchTerm
  || includes (toLowerCase (role c)) searchTerm.


(** [handleRequirementFilter(e)]; [reqId] is the selected value. *)
Definition handleRequirementFilter (reqId : string) : M unit :=
  s <- getState ;;
  if isEmpty reqId then loadCandidatesByStage (currentStage s)
  else
    emit (ShowLoadingOverlay "Filtering candidates...") ;;
    o <- await (getByRequirement reqId) ;;
    match o with
    | Resolves data =>
        let filtered :=
          filter (fun c => String.eqb (current_stage c) (currentStage s))
                 data in
        emit (RenderCandidatesTable filtered (currentStage s)) ;;
        emit HideLoadingOverlay
    | Rejects =>
        emit HideLoadingOverlay ;;
        emit (Toast "Failed to filter candidates" "error")
    end.

(** *** Vocabulary of the properties *)

Fixpoint lefts {A B} (l : list (A + B)) : list A :=
  match l with
  | [] => []
  | inl a :: rest => a :: lefts rest
  | inr _ :: rest => lefts rest
  end.

Fixpoint rights {A B} (l : list (A + B)) : list B :=
  match l with
  | [] => []
  | inl _ :: rest => rights rest
  | inr b :: rest => b :: rights rest
  end.






(** The remote calls among some events, in order. *)
Fixpoint calls (evs : list Event) : list ApiCall :=
  match evs with
  | [] => []
  | Call c :: rest => c :: calls rest
  | _ :: rest => calls rest
  end.

(** The outcome the next awaited call will have. *)
Definition nextOutcome (w : World) : Outcome :=
  match remote w with
  | [] => Rejects
  | o :: _ => o
  end.




(** The submit handlers of the five stage forms. *)
Definition advanceHandlers : list (bool -> FormData -> M unit) :=
  [ handleTelephonicSubmit; handleOwnerDiscussionSubmit;
    handleScheduleSubmit; handleHRInterviewSubmit; handleTestSubmit ].

(** The candidate a stage call or a reject call is about. *)
Definition callTarget (c : ApiCall) : option (option string) :=
  match c with
  | updateTelephonic cid _ | updateOwnerDiscussion cid _
  | scheduleInterview cid _ | updateHRInterview cid _
  | updateTests cid _ | reject cid _ => Some cid
  | _ => None
  end.

(** The pages [getHRPage] can answer. *)
Definition hrPages : list string :=
  [ "review"; "cv-upload"; "shortlisting"; "telephonic";
    "owner-discussion"; "schedule"; "walk-ins"; "hr-interview"; "tests" ].

(** What a file entry shows of its file: everything but the content. *)
Definition summary (e : FileData)
  : string * string * string * string * string * Z :=
  (fd_name e, fd_mobile e, fd_source e, fd_filename e,
   file_name (fd_file e), file_size (fd_file e)).

(** *** More of the module *)

(** [list.splice(index, 1)] as [removeFile] uses it: a negative index
    counts from the end, an index past the end removes nothing. *)
Definition spliceOne {A} (l : list A) (index : Z) : list A :=
  let len := Z.of_nat (length l) in
  let start :=
    if (index <? 0)%Z then Z.max (len + index) 0 else Z.min index len in
  firstn (Z.to_nat start) l ++ skipn (S (Z.to_nat start)) l.

(** [removeFile(index)]. *)
Definition removeFile (index : Z) : M unit :=
  s <- getState ;;
  setSelectedFiles (spliceOne (selectedFiles s) index) ;;
  updateFileList.

(** The buttons of a row of the candidates table. *)
Inductive Button : Type :=
| ViewButton
| ActionButton (a : Action)
| MessageButton (messageType : string)
| RejectButton.

(** The [switch (stage)] of [renderCandidateRow]: the buttons it puts
    between the view button and the reject button. *)
Definition actionButtons (stage : string) : list Button :=
  if String.eqb stage "Shortlisting" then [ActionButton shortlist]
  else if String.eqb stage "Telephonic" then [ActionButton telephonic]
  else if String.eqb stage "Owner Discussion"
  then [ActionButton owner_discussion]
  else if String.eqb stage "Schedule Interview"
  then [ActionButton schedule; MessageButton "interview"]
  else if String.eqb stage "Walk-in" then [ActionButton walkin]
  else if String.eqb stage "HR Interview" then [ActionButton hr_interview]
  else if String.eqb stage "Tests" then [ActionButton test]
  else [].

(** What [renderCandidateRow(candidate, stage)] puts in a row: the
    candidate of the row, its status badge and its buttons. *)
Record Row : Type := mkRow {
  row_candidate : Candidate;
  row_badge : Badge;
  row_buttons : list Button
}.

Definition renderCandidateRow (candidate : Candidate) (stage : string)
  : Row :=
  mkRow candidate (getStatusBadge (status candidate))
        (ViewButton :: actionButtons stage ++ [RejectButton]).

(** The rows [renderCandidatesTable(candidateList, stage)] writes; for an
    empty list the source writes a placeholder line and no row. *)
Definition renderCandidatesTable (candidateList : list Candidate)
           (stage : string) : list Row :=
  map (fun candidate => renderCandidateRow candidate stage) candidateList.

(** The rows of the tables rendered among some events, in order. *)
Fixpoint tables (evs : list Event) : list (list Row) :=
  match evs with
  | [] => []
  | RenderCandidatesTable rows stage :: rest =>
      renderCandidatesTable rows stage :: tables rest
  | _ :: rest => tables rest
  end.

End HR.

(** ** The dashboard (js/dashboard.js): navigation to a stage page *)

Module Dashboard.



End Dashboard.

(** * Properties *)

(** Unfolds the monad of the HR module down to functions on worlds. *)
Ltac hr_unfold :=
  unfold HR.run, HR.closeModals, HR.updateFileList, HR.setSelectedFiles,
    HR.setCandidates, HR.setSelectedCandidateId, HR.setCurrentStage,
    HR.setRejectionOnSubmit, HR.hasModal, HR.await, HR.emit, HR.getState,
    HR.putState, HR.bind, HR.ret.

(** ** Strings *)

Section StringFacts.

Import JSString.

Lemma split_not_nil (sep : ascii) (s : string) : split sep s <> [].
Proof.
  induction s as [|c r IH]; simpl; [discriminate|].
  destruct (Ascii.eqb c sep); [discriminate|].
  destruct (split sep r); [contradiction|discriminate].
Qed.

Lemma join_cons (sep p q : string) (rest : list string) :
  join sep (p :: q :: rest) = (p ++ sep ++ join sep (q :: rest))%string.
Proof. reflexivity. Qed.

(** Joining the segments of a split with the separator gives the string
    back. *)
Lemma join_split (sep : ascii) (s : string) :
  join (String sep EmptyString) (split sep s) = s.
Proof.
  induction s as [|c r IH]; [reflexivity|].
  simpl split. destruct (Ascii.eqb_spec c sep) as [->|Hne].
  - pose proof (split_not_nil sep r) as Hnil.
    destruct (split sep r) as [|h t]; [contradiction|].
    rewrite join_cons, IH. reflexivity.
  - pose proof (split_not_nil sep r) as Hnil.
    destruct (split sep r) as [|h t]; [contradiction|].
    destruct t as [|h' t].
    + simpl in *. now rewrite IH.
    + rewrite join_cons. rewrite join_cons in IH.
      rewrite <- IH. reflexivity.
Qed.

(** No segment of a split holds the separator. *)
Lemma split_segments_free (sep : ascii) (s seg : string) :
  In seg (split sep s) ->
  all (fun d => negb (Ascii.eqb d sep)) seg = true.
Proof.
  revert seg. induction s as [|c r IH]; simpl; intros seg Hin.
  - destruct Hin as [<-|[]]. reflexivity.
  - destruct (Ascii.eqb c sep) eqn:Hc.
    + destruct Hin as [<-|Hin]; [reflexivity|now apply IH].
    + pose proof (split_not_nil sep r) as Hnil.
      destruct (split sep r) as [|h t]; [contradiction|].
      destruct Hin as [<-|Hin].
      * simpl. rewrite Hc. simpl. apply IH. now left.
      * apply IH. now right.
Qed.

(** [stripExtension] cuts nothing, or a final dot with a non-empty
    dot-free rest. *)
Lemma stripExtension_spec (s : string) :
  exists ext : string,
    s = (stripExtension s ++ ext)%string
    /\ (ext = EmptyString
        \/ exists e, ext = String "." e
                     /\ e <> EmptyString
                     /\ all (fun d => negb (Ascii.eqb d ".")) e = true).
Proof.
  induction s as [|c r (ext & Heq & Hext)].
  - exists EmptyString. split; [reflexivity|now left].
  - cbn [stripExtension].
    destruct (Ascii.eqb c "." && negb (isEmpty r)
              && all (fun d => negb (Ascii.eqb d ".")) r) eqn:Hcut.
    + apply andb_true_iff in Hcut as [Hcut Hall].
      apply andb_true_iff in Hcut as [Hdot Hne].
      apply Ascii.eqb_eq in Hdot as ->.
      exists (String "." r). split; [reflexivity|].
      right. exists r. repeat split; [|exact Hall].
      intros ->. discriminate.
    + exists ext. split; [|exact Hext].
      cbn [append]. f_equal. exact Heq.
Qed.

Lemma isTenDigits_spec (s : string) :
  isTenDigits s = true <->
  String.length s = 10 /\ all isDigit s = true.
Proof.
  unfold isTenDigits. rewrite andb_true_iff, Nat.eqb_eq. tauto.
Qed.

Lemma toLowerCase_length (s : string) :
  String.length (toLowerCase s) = String.length s.
Proof. induction s; simpl; congruence. Qed.

Lemma toLowerCase_app (s t : string) :
  toLowerCase (s ++ t) = (toLowerCase s ++ toLowerCase t)%string.
Proof. induction s; simpl; congruence. Qed.

Lemma startsWith_spec (t s : string) :
  startsWith t s = true <-> exists post, s = (t ++ post)%string.
Proof.
  revert s. induction t as [|a t IH]; intros s; simpl.
  - split; [intros _; now exists s|reflexivity].
  - destruct s as [|b s].
    + split; [discriminate|intros [post H]; discriminate].
    + rewrite andb_true_iff, IH. split.
      * intros [Hab [post ->]]. apply Ascii.eqb_eq in Hab as ->.
        now exists post.
      * intros [post H]. injection H as -> ->. split.
        -- apply Ascii.eqb_refl.
        -- now exists post.
Qed.

(** [includes] is the substring relation. *)
Lemma includes_spec (s t : string) :
  includes s t = true <->
  exists pre post, s = (pre ++ t ++ post)%string.
Proof.
  induction s as [|c r IH].
  - simpl. rewrite orb_false_r, startsWith_spec. split.
    + intros [post H]. now exists EmptyString, post.
    + intros (pre & post & H). destruct pre; [|discriminate].
      now exists post.
  - simpl includes. rewrite orb_true_iff, startsWith_spec, IH. split.
    + intros [[post H]|(pre & post & ->)].
      * now exists EmptyString, post.
      * now exists (String c pre), post.
    + intros (pre & post & H). destruct pre as [|c' pre].
      * left. now exists post.
      * right. injection H as -> ->. now exists pre, post.
Qed.

End StringFacts.

(** ** Intake: [parseFilename], [handleFiles], [handleCVUpload] *)

Section Intake.

Import JSString HR.
Local Open Scope hr_scope.

(** C4, the input that separates the code from the claim as written: the
    second segment of ["Jane_ 9876543210_Naukri.pdf"] is a space followed
    by ten digits, which is not exactly ten digits, and the file name is
    accepted all the same, its mobile being the segment without the
    space. *)
Lemma parseFilename_accepts_padded_mobile :
  split "_" (stripExtension "Jane_ 9876543210_Naukri.pdf")
    = ["Jane"; " 9876543210"; "Naukri"]
  /\ isTenDigits " 9876543210" = false
  /\ parseFilename "Jane_ 9876543210_Naukri.pdf"
     = Some (mkParsed "Jane" "9876543210" "Naukri")
  /\ p_mobile (mkParsed "Jane" "9876543210" "Naukri") <> " 9876543210".
Proof. repeat split; try reflexivity. discriminate. Qed.

(** C4, amended: [parseFilename] strips the final extension, splits the
    rest on underscores, and succeeds exactly when there are at least
    three segments and the second segment, once surrounding white space
    is trimmed, is exactly ten digits; then name and mobile are the
    trimmed first and second segments and source is the trimmed rejoining
    of the remaining segments with underscores.  The three file names of
    the specification behave as it says. *)
Theorem parseFilename_trimmed_segments :
  (forall (filename : string) (p : Parsed),
      parseFilename filename = Some p <->
      exists seg1 seg2 rest,
        split "_" (stripExtension filename) = seg1 :: seg2 :: rest
        /\ rest <> []
        /\ String.length (trim seg2) = 10
        /\ all isDigit (trim seg2) = true
        /\ p = mkParsed (trim seg1) (trim seg2) (trim (join "_" rest)))
  /\ parseFilename "Jane_9876543210_Naukri.pdf"
     = Some (mkParsed "Jane" "9876543210" "Naukri")
  /\ parseFilename "Jane_123_Naukri.pdf" = None
  /\ parseFilename "JaneOnly.pdf" = None.
Proof.
  split; [|repeat split; reflexivity].
  intros filename p. unfold parseFilename.
  destruct (split "_" (stripExtension filename)) as [|s1 [|s2 [|s3 rest]]];
    cbn [length Nat.ltb Nat.leb nth skipn].
  1-3: split; [discriminate|];
       intros (a & b & r & Heq & Hne & _); try discriminate;
       injection Heq as _ _ <-; contradiction.
  destruct (isTenDigits (trim s2)) eqn:Hten; cbn [negb].
  - apply isTenDigits_spec in Hten as [Hlen Hdig]. split.
    + intros [= <-]. exists s1, s2, (s3 :: rest).
      repeat split; try assumption. discriminate.
    + intros (a & b & r & Heq & _ & _ & _ & ->).
      now injection Heq as <- <- <-.
  - split; [discriminate|].
    intros (a & b & r & Heq & _ & Hlen & Hdig & _).
    injection Heq as <- <- <-.
    assert (isTenDigits (trim s2) = true) by now apply isTenDigits_spec.
    congruence.
Qed.

(** *** Classification of a batch *)




(** The loop of [handleFiles] sorts the verdicts of the files, keeping
    their order. *)
Lemma classify_verdicts (files : list File) :
  classify files
  = (lefts (map checkFile files), rights (map checkFile files)).
Proof.
  unfold classify.
  enough (H : forall valid errors,
             fold_left
               (fun acc file =>
                  match checkFile file with
                  | inl entry => (fst acc ++ [entry], snd acc)
                  | inr err => (fst acc, snd acc ++ [err])
                  end) files (valid, errors)
             = (valid ++ lefts (map checkFile files),
                errors ++ rights (map checkFile files)))
    by apply (H [] []).
  induction files as [|f files IH]; intros valid errors; simpl.
  - now rewrite !app_nil_r.
  - destruct (checkFile f) as [entry|err]; simpl; rewrite IH.
    + now rewrite <- app_assoc.
    + now rewrite <- app_assoc.
Qed.








(** *** Running [handleFiles] and [handleCVUpload] *)


Lemma forEach_toasts (errors : list string) (w : World) :
  forEach errors (fun err => emit (Toast err "error")) w
  = (tt, mkWorld (state w) (modals w) (remote w)
                 (trace w ++ map (fun err => Toast err "error") errors)).
Proof.
  revert w. induction errors as [|err errors IH]; intros [s ms r t].
  - simpl. now rewrite app_nil_r.
  - cbn [forEach]. unfold bind at 1. unfold emit at 1. cbn [state modals remote trace].
    rewrite IH. cbn [state modals remote trace map].
    now rewrite <- app_assoc.
Qed.

Lemma handleFiles_run (files : list File) (w : World) :
  handleFiles files w
  = (tt,
     mkWorld
       (mkState (candidates (state w)) (selectedCandidateId (state w))
                (currentStage (state w))
                (selectedFiles (state w) ++ fst (classify files))
                (rejectionOnSubmit (state w)))
       (modals w) (remote w)
       (trace w
        ++ map (fun err => Toast err "error") (snd (classify files))
        ++ [UpdateFileList
              (selectedFiles (state w) ++ fst (classify files))])).
Proof.
  unfold handleFiles. destruct (classify files) as [valid errors].
  unfold bind at 1. rewrite forEach_toasts.
  destruct w as [s ms r t]. hr_unfold. cbn. now rewrite <- app_assoc.
Qed.

Lemma calls_app (a b : list Event) : calls (a ++ b) = calls a ++ calls b.
Proof.
  induction a as [|e a IH]; [reflexivity|].
  destruct e; simpl; rewrite ?IH; reflexivity.
Qed.

Lemma calls_toasts (errors : list string) :
  calls (map (fun err => Toast err "error") errors) = [].
Proof. induction errors; simpl; auto. Qed.

(** Two files of one name and one size get the same verdict. *)
Lemma checkFile_name_size (f f' : File) :
  file_name f = file_name f' ->
  file_size f = file_size f' ->
  match checkFile f, checkFile f' with
  | inl e, inl e' => summary e = summary e'
  | inr r, inr r' => r = r'
  | _, _ => False
  end.
Proof.
  intros Hn Hs. unfold checkFile. rewrite <- Hn, <- Hs.
  destruct (Utils.isValidFileType _ _); cbn [negb]; [|reflexivity].
  destruct (Utils.isValidFileSize _); cbn [negb]; [|reflexivity].
  destruct (parseFilename (file_name f)); [|reflexivity].
  unfold summary. cbn. now rewrite Hn, Hs.
Qed.

Lemma verdicts_name_size (files files' : list File) :
  map (fun f => (file_name f, file_size f)) files
  = map (fun f => (file_name f, file_size f)) files' ->
  map summary (lefts (map checkFile files))
  = map summary (lefts (map checkFile files'))
  /\ rights (map checkFile files) = rights (map checkFile files').
Proof.
  revert files'.
  induction files as [|f files IH]; intros [|f' files'] Heq;
    try discriminate; [now split|].
  cbn [map] in Heq. injection Heq as Hn Hs Heq.
  destruct (IH _ Heq) as [IHl IHr].
  pose proof (checkFile_name_size f f' Hn Hs) as Hv.
  cbn [map]. destruct (checkFile f), (checkFile f');
    try contradiction; cbn [lefts rights map]; split; congruence.
Qed.

(** C8: the partition is a function of the names and sizes of the files
    alone: two batches that agree on them get the same accepted entries
    (up to the content of the files) and the same rejections; running
    [handleFiles] appends these accepted entries whatever the state
    and the remote side are, issues no remote call, leaves the remote
    side alone, and a second run on the same batch appends the same
    entries again. *)
Theorem classification_deterministic
        (files files' : list File) (w : World) :
  map (fun f => (file_name f, file_size f)) files
  = map (fun f => (file_name f, file_size f)) files' ->
  map summary (fst (classify files)) = map summary (fst (classify files'))
  /\ snd (classify files) = snd (classify files')
  /\ selectedFiles (state (run (handleFiles files) w))
     = selectedFiles (state w) ++ fst (classify files)
  /\ selectedFiles
       (state (run (handleFiles files) (run (handleFiles files) w)))
     = (selectedFiles (state w) ++ fst (classify files))
       ++ fst (classify files)
  /\ remote (run (handleFiles files) w) = remote w
  /\ calls (trace (run (handleFiles files) w)) = calls (trace w).
Proof.
  intros Heq. rewrite !classify_verdicts. cbn [fst snd].
  destruct (verdicts_name_size _ _ Heq) as [Hl Hr].
  unfold run. rewrite !handleFiles_run. cbn [snd state remote trace selectedFiles].
  rewrite !classify_verdicts. cbn [fst snd].
  repeat split; try assumption.
  rewrite !calls_app, calls_toasts. cbn. now rewrite app_nil_r.
Qed.

Lemma classification_deterministic_witness :
  let jane := "Jane_9876543210_Naukri.pdf" in
  map summary (fst (classify [mkFile jane 100 "first"]))
  = map summary (fst (classify [mkFile jane 100 "second"]))
  /\ snd (classify [mkFile jane 100 "first"])
     = snd (classify [mkFile jane 100 "second"]).
Proof.
  intros jane.
  destruct (classification_deterministic
              [mkFile jane 100 "first"] [mkFile jane 100 "second"]
              (mkWorld initialState [] [] []) eq_refl)
    as (H1 & H2 & _).
  split; assumption.
Defined.

(** C7: [handleCVUpload] issues the upload call exactly when at least
    one file is selected and the requirement id is not empty; with no
    file, or with an empty requirement id, all it does is show a warning:
    no remote call, the state and the remote side as they were. *)
Theorem upload_requires_files_and_requirement
        (w : World) (requirementId : string) :
  exists evs : list Event,
    trace (run (handleCVUpload requirementId) w) = trace w ++ evs
    /\ if (length (selectedFiles (state w)) =? 0)%nat
          || isEmpty requirementId
       then calls evs = []
            /\ (exists msg, evs = [Toast msg "warning"])
            /\ state (run (handleCVUpload requirementId) w) = state w
            /\ remote (run (handleCVUpload requirementId) w) = remote w
       else calls evs
            = [uploadCVs
                 (map fd_file (selectedFiles (state w))) requirementId
                 (map (fun f => (fd_name f, fd_mobile f, fd_source f))
                      (selectedFiles (state w)))].
Proof.
  destruct w as [s ms r t].
  unfold handleCVUpload. hr_unfold. cbn [state].
  destruct (length (selectedFiles s) =? 0)%nat eqn:Hlen; cbn [orb].
  - eexists. cbn. split; [reflexivity|]. repeat split. eexists. reflexivity.
  - destruct (isEmpty requirementId) eqn:Hreq.
    + eexists. cbn. split; [reflexivity|]. repeat split.
      eexists. reflexivity.
    + destruct r as [|[|data] r]; cbn; rewrite <- ?app_assoc;
        eexists; (split; [reflexivity|]); reflexivity.
Qed.

End Intake.

(** ** Status badge and permission query *)

Section Session.

Import JS.

(** A status of the table gets the class the table gives it. *)
Lemma getStatusBadge_known (status : string) (cls : Value) :
  own HR.statusClasses status = Some cls ->
  HR.badgeClass (HR.getStatusBadge status) = cls.
Proof.
  unfold HR.getStatusBadge, getObj, HR.statusClasses. cbn [HR.badgeClass own].
  repeat (destruct (String.eqb _ status);
          [intros [= <-]; reflexivity|]).
  discriminate.
Qed.

(** A status that is neither in the table nor a name of
    [Object.prototype] gets the default class. *)
Lemma getStatusBadge_default (status : string) :
  own HR.statusClasses status = None ->
  inObjectPrototype status = false ->
  HR.getStatusBadge status = HR.mkBadge (VStr "badge-secondary") status.
Proof.
  intros Hown Hproto. unfold HR.getStatusBadge, getObj.
  now rewrite Hown, Hproto.
Qed.

(** C9, the failing input: the status ["constructor"] is not in the
    table, yet [statusClasses[status]] finds the member of
    [Object.prototype] of that name, which is truthy, so the badge class
    is that built-in and not the default class. *)
Theorem getStatusBadge_inherited_name :
  own HR.statusClasses "constructor" = None
  /\ HR.getStatusBadge "constructor"
     = HR.mkBadge (VBuiltin ["Object.prototype"; "constructor"])
                  "constructor"
  /\ HR.badgeClass (HR.getStatusBadge "constructor")
     <> VStr "badge-secondary".
Proof. repeat split. discriminate. Qed.

Section Permission.

Variable P : Platform.

Lemma inherited_shape (kd : Kind) (k : string) :
  inherited P kd k = VUndefined
  \/ exists path, inherited P kd k = VBuiltin path.
Proof.
  unfold inherited. destruct (protoHas P kd k); [right; eauto|].
  destruct (inObjectPrototype k); [right; eauto|now left].
Qed.

(** Only arrays, objects and built-ins can hold [true]. *)
Lemma get_true_receiver (v : Value) (k : string) :
  get P v k = Ok (VBool true) ->
  truthy v = true.
Proof.
  destruct v as [| |b|n|s|items|props|path]; cbn [get truthy];
    try discriminate; try reflexivity.
  - destruct (inherited_shape KBoolean k) as [->|[path ->]]; discriminate.
  - destruct (inherited_shape KNumber k) as [->|[path ->]]; discriminate.
  - destruct (String.eqb k "length"); [discriminate|].
    destruct (parseIndex k) as [i|];
      [destruct (String.get i s); [discriminate|]|];
      destruct (inherited_shape KString k) as [->|[path ->]];
      discriminate.
Qed.

(** What a property of a falsy value can be. *)
Lemma get_falsy (v e : Value) (k : string) :
  truthy v = false ->
  get P v k = Ok e ->
  e = VUndefined \/ (exists path, e = VBuiltin path)
  \/ exists n, e = VNum n.
Proof.
  destruct v as [| |b|n|s|items|props|path]; cbn [get truthy];
    try discriminate.
  - intros _ [= <-].
    destruct (inherited_shape KBoolean k) as [->|[path ->]]; eauto.
  - intros _ [= <-].
    destruct (inherited_shape KNumber k) as [->|[path ->]]; eauto.
  - destruct s; [|discriminate]. intros _.
    destruct (String.eqb k "length"); [intros [= <-]; eauto|].
    destruct (parseIndex k) as [i|];
      [destruct i; cbn [String.get]|];
      intros [= <-];
      destruct (inherited_shape KString k) as [->|[path ->]]; eauto.
Qed.

Hypothesis builtins_hold_no_true :
  forall path k, builtinGet P path k <> Ok (VBool true).

Lemma get_of_falsy_not_true (v e : Value) (k k' : string) :
  truthy v = false ->
  get P v k = Ok e ->
  get P e k' <> Ok (VBool true).
Proof.
  intros Hv He.
  destruct (get_falsy v e k Hv He) as [->|[[path ->]|[n ->]]];
    cbn [get].
  - discriminate.
  - apply builtins_hold_no_true.
  - destruct (inherited_shape KNumber k') as [->|[path ->]];
      discriminate.
Qed.

Lemma isTrue_spec (v : Value) : isTrue v = true <-> v = VBool true.
Proof.
  destruct v as [| |[|]|n|s|items|props|path]; cbn;
    split; congruence.
Qed.

Lemma isString_spec (s : string) (v : Value) :
  isString s v = true <-> v = VStr s.
Proof.
  destruct v as [| |b|n|t|items|props|path]; cbn;
    try (split; congruence).
  rewrite String.eqb_eq. split; congruence.
Qed.

(** C10: [hasPermission(module, action)] answers [false] when there is
    no current user; [true] when the role of the user is ['admin'],
    whatever the permissions are; and otherwise [true] exactly when
    [user.permissions[module][action]] is the boolean [true]. *)
Theorem hasPermission_spec (module action : string) (st : Auth.State) :
  let user := fst (Auth.getUser st) in
  let answer := fst (Auth.hasPermission P module action st) in
  (truthy user = false -> answer = Ok false)
  /\ (truthy user = true ->
      get P user "role" = Ok (VStr "admin") ->
      answer = Ok true)
  /\ (forall role : Value,
         truthy user = true ->
         get P user "role" = Ok role ->
         role <> VStr "admin" ->
         (answer = Ok true <->
          bind (bind (get P user "permissions")
                     (fun perms => get P perms module))
               (fun entry => get P entry action)
          = Ok (VBool true))).
Proof.
  unfold Auth.hasPermission.
  destruct (Auth.getUser st) as [user st']. cbn [fst].
  split; [|split].
  - intros ->. reflexivity.
  - intros -> ->. reflexivity.
  - intros role -> -> Hrole. cbn [negb bind].
    destruct (isString CONFIG.ROLES_ADMIN role) eqn:Hadmin.
    { apply isString_spec in Hadmin. contradiction. }
    destruct (get P user "permissions") as [perms|e]; cbn [bind];
      [|split; discriminate].
    destruct (truthy perms) eqn:Hperms.
    + destruct (get P perms module) as [entry|e]; cbn [bind];
        [|split; discriminate].
      destruct (truthy entry) eqn:Hentry.
      * destruct (get P entry action) as [granted|e]; cbn [bind fst];
          [|split; discriminate].
        split; intros [= H]; f_equal; now apply isTrue_spec.
      * split; [discriminate|]. intros H.
        apply get_true_receiver in H. congruence.
    + split; [discriminate|].
      destruct (get P perms module) as [entry|e] eqn:Hget; cbn [bind];
        [|discriminate].
      intros H. exfalso.
      exact (get_of_falsy_not_true _ _ _ _ Hperms Hget H).
Qed.

End Permission.

Lemma hasPermission_spec_witness :
  fst (Auth.hasPermission barePlatform "candidates" "view"
         (Auth.mkState VNull
            (Auth.Parsed
               (VObj [("role", VStr "hr");
                      ("permissions",
                       VObj [("candidates",
                              VObj [("view", VBool true)])])]))))
  = Ok true.
Proof.
  pose proof (hasPermission_spec barePlatform
                ltac:(intros path k; discriminate)
                "candidates" "view"
                (Auth.mkState VNull
                   (Auth.Parsed
                      (VObj [("role", VStr "hr");
                             ("permissions",
                              VObj [("candidates",
                                     VObj [("view", VBool true)])])]))))
    as (_ & _ & H).
  apply (H (VStr "hr")); [reflexivity|reflexivity|discriminate|reflexivity].
Defined.

End Session.

(** ** Candidate actions, stage lists, search and filter *)

Section Pipeline.

Import JSString HR.
Local Open Scope hr_scope.



(** *** Stage submit handlers *)

(** What a stage submit handler does, case by case. *)
Lemma submitStage_run (overlay : string)
      (call : option string -> FormData -> ApiCall)
      (done stage failed : string) (formValid : bool)
      (formData : FormData) (w : World) :
  let issued :=
    [ShowLoadingOverlay overlay;
     Call (call (selectedCandidateId (state w)) formData)] in
  let closed :=
    mkState (candidates (state w)) None (currentStage (state w))
            (selectedFiles (state w)) (rejectionOnSubmit (state w)) in
  let loading :=
    [Toast done "success"; CloseModals;
     ShowLoadingOverlay ("Loading " ++ stage ++ " candidates...")%string;
     Call (getByStage stage)] in
  run (submitStage overlay call done stage failed formValid formData) w
  = if negb formValid then w
    else match remote w with
         | [] =>
             mkWorld (state w) (modals w) []
               (trace w ++ issued
                ++ [HideLoadingOverlay; Toast failed "error"])
         | Rejects :: rest =>
             mkWorld (state w) (modals w) rest
               (trace w ++ issued
                ++ [HideLoadingOverlay; Toast failed "error"])
         | Resolves _ :: [] =>
             mkWorld closed (modals w) []
               (trace w ++ issued ++ loading
                ++ [HideLoadingOverlay;
                    Toast "Failed to load candidates" "error"])
         | Resolves _ :: Rejects :: rest =>
             mkWorld closed (modals w) rest
               (trace w ++ issued ++ loading
                ++ [HideLoadingOverlay;
                    Toast "Failed to load candidates" "error"])
         | Resolves _ :: Resolves data :: rest =>
             mkWorld
               (mkState data None (currentStage (state w))
                        (selectedFiles (state w))
                        (rejectionOnSubmit (state w)))
               (modals w) rest
               (trace w ++ issued ++ loading
                ++ [RenderCandidatesTable data stage; HideLoadingOverlay])
         end.
Proof.
  destruct w as [s ms r t]. unfold submitStage, loadCandidatesByStage.
  destruct formValid; [|reflexivity].
  destruct r as [|[|d1] [|[|d2] r']]; hr_unfold; cbn;
    rewrite <- ?app_assoc; reflexivity.
Qed.

Lemma advanceHandlers_shape (h : bool -> FormData -> M unit) :
  In h advanceHandlers ->
  exists overlay call done stage failed,
    h = submitStage overlay call done stage failed
    /\ forall cid fd, callTarget (call cid fd) = Some cid.
Proof.
  intros [<-|[<-|[<-|[<-|[<-|[]]]]]];
    do 5 eexists; (split; [reflexivity|reflexivity]).
Qed.

(** C2: when the persistence call of a stage submit handler fails, the
    module state after the handler is the state before it (the candidate
    list with every stage and timeline in it, the selection, the current
    stage), and nothing is rendered; the candidate list changes only when
    the persistence call has succeeded and the reload that follows it has
    succeeded too, and then it is the reloaded list. *)
Theorem failed_advance_leaves_state
        (h : bool -> FormData -> M unit) (formValid : bool)
        (formData : FormData) (w : World) :
  In h advanceHandlers ->
  (nextOutcome w = Rejects ->
   state (run (h formValid formData) w) = state w
   /\ exists evs,
       trace (run (h formValid formData) w) = trace w ++ evs
       /\ forall rows stage, ~ In (RenderCandidatesTable rows stage) evs)
  /\ (candidates (state (run (h formValid formData) w))
      <> candidates (state w) ->
      formValid = true
      /\ exists confirmed reloaded rest,
          remote w = Resolves confirmed :: Resolves reloaded :: rest
          /\ candidates (state (run (h formValid formData) w))
             = reloaded).
Proof.
  intros Hh.
  destruct (advanceHandlers_shape h Hh)
    as (overlay & call & done & stage & failed & -> & _).
  rewrite submitStage_run. cbv zeta.
  destruct formValid; cbn [negb].
  - unfold nextOutcome.
    destruct (remote w) as [|[|d1] r]; cbn [state trace candidates].
    + split; [intros _|intros H; now contradiction H].
      split; [reflexivity|]. eexists. split; [reflexivity|].
      intros rows st [H|[H|[H|[H|[]]]]]; discriminate.
    + split; [intros _|intros H; now contradiction H].
      split; [reflexivity|]. eexists. split; [reflexivity|].
      intros rows st [H|[H|[H|[H|[]]]]]; discriminate.
    + split; [discriminate|].
      destruct r as [|[|d2] r']; cbn [state trace candidates];
        try (intros H; now contradiction H).
      intros _. split; [reflexivity|]. now exists d1, d2, r'.
  - split; [intros _|intros H; now contradiction H].
    split; [reflexivity|]. exists []. split; [now rewrite app_nil_r|].
    intros rows st [].
Qed.

Lemma failed_advance_leaves_state_witness :
  let jane :=
    mkCandidate "c1" "Jane" "9876543210" "CRM" "Naukri" "Pending"
                "Telephonic" "REQ-1"
                [mkTimelineEntry "CV Uploaded" "2024-01-01" "hr" None] in
  let w :=
    mkWorld (mkState [jane] (Some "c1") "telephonic" [] false)
            ["telephonic-modal"] [Rejects] [] in
  nextOutcome w = Rejects
  /\ state (run (handleTelephonicSubmit true [("status", "Pending")]) w)
     = state w.
Proof.
  intros jane w. split; [reflexivity|].
  apply (failed_advance_leaves_state
           handleTelephonicSubmit true [("status", "Pending")] w).
  - left. reflexivity.
  - reflexivity.
Defined.

(** *** Actions on a candidate of the list *)

Lemma run_seq {A} (m : M A) (k : M unit) (w : World) :
  run (m ;; k) w = run k (run m w).
Proof. unfold run, bind. now destruct (m w). Qed.










(** *** Search *)

Lemma toLowerCase_split (s a b : string) :
  toLowerCase s = (a ++ b)%string ->
  exists sa sb,
    s = (sa ++ sb)%string /\ toLowerCase sa = a /\ toLowerCase sb = b.
Proof.
  revert s. induction a as [|x a IH]; intros s H.
  - exists EmptyString, s. now repeat split.
  - destruct s as [|y s]; [discriminate|].
    cbn in H. injection H as Hx H.
    destruct (IH s H) as (sa & sb & -> & <- & <-).
    exists (String y sa), sb. cbn. now rewrite Hx.
Qed.

(** Lowering both sides and looking for an occurrence is the
    case-insensitive substring test. *)
Lemma includes_lower_ci (s t : string) :
  includes (toLowerCase s) (toLowerCase t) = true <-> ciSubstring t s.
Proof.
  rewrite includes_spec. unfold ciSubstring. split.
  - intros (pre & post & H).
    apply toLowerCase_split in H as (spre & srest & -> & <- & H).
    apply toLowerCase_split in H as (smid & spost & -> & Hmid & <-).
    now exists spre, smid, spost.
  - intros (pre & mid & post & -> & Hmid).
    exists (toLowerCase pre), (toLowerCase post).
    now rewrite !toLowerCase_app, Hmid.
Qed.


Lemma toLowerCase_idempotent (s : string) :
  toLowerCase (toLowerCase s) = toLowerCase s.
Proof.
  induction s as [|c s IH]; [reflexivity|]. cbn. rewrite IH. f_equal.
  destruct c as [[|] [|] [|] [|] [|] [|] [|] [|]]; reflexivity.
Qed.

(** A candidate is kept by the search when the typed text occurs in its
    name or in its role up to case, or when the lowered text occurs in
    its mobile as it is. *)
Lemma matchesSearch_spec (value : string) (c : Candidate) :
  matchesSearch (toLowerCase value) c = true <->
  ciSubstring value (name c)
  \/ includes (mobile c) (toLowerCase value) = true
  \/ ciSubstring value (role c).
Proof.
  unfold matchesSearch. rewrite !orb_true_iff, !includes_lower_ci. tauto.
Qed.


(** *** Requirement filter *)


(** No page name is a stage name. *)
Lemma hrPage_not_stage (page : string) :
  In page hrPages -> ~ In page CONFIG.CANDIDATE_STAGES.
Proof.
  intros Hpage Hstage. cbn in Hpage, Hstage.
  repeat (destruct Hpage as [<-|Hpage];
          [repeat (destruct Hstage as [Hstage|Hstage];
                   [discriminate|]); contradiction|]).
  contradiction.
Qed.

(** On every HR page, candidates whose stage is a stage of the
    enumeration are all dropped by the requirement filter. *)
Lemma requirement_filter_renders_nothing
      (w : World) (reqId : string) (data : list Candidate)
      (rest : list Outcome) :
  In (currentStage (state w)) hrPages ->
  isEmpty reqId = false ->
  remote w = Resolves data :: rest ->
  Forall (fun c => In (current_stage c) CONFIG.CANDIDATE_STAGES) data ->
  run (handleRequirementFilter reqId) w
  = mkWorld (state w) (modals w) rest
      (trace w
       ++ [ShowLoadingOverlay "Filtering candidates...";
           Call (getByRequirement reqId);
           RenderCandidatesTable [] (currentStage (state w));
           HideLoadingOverlay]).
Proof.
  destruct w as [s ms r t]. cbn [state remote modals trace].
  intros Hpage Hreq -> Hdata.
  unfold handleRequirementFilter. hr_unfold. cbn [state]. rewrite Hreq.
  cbn -[String.eqb filter]. rewrite <- !app_assoc. cbn [app].
  replace (filter _ data) with (@nil Candidate); [reflexivity|].
  symmetry. induction Hdata as [|c data Hc _ IH]; [reflexivity|].
  cbn [filter]. rewrite IH.
  destruct (String.eqb_spec (current_stage c) (currentStage s)) as [E|E];
    [|reflexivity].
  exfalso. apply (hrPage_not_stage _ Hpage). now rewrite <- E.
Qed.

(** C6, the failing run: on the telephonic page the list of the stage is
    loaded with Jane, whose stage is [Telephonic] and whose requirement
    is REQ-1; filtering by REQ-1 fetches her again from the
    requirement-scoped endpoint and then renders an empty table, because
    her stage is compared with the page name [telephonic]. *)
Theorem requirement_filter_page_mismatch :
  let jane :=
    mkCandidate "c1" "Jane" "9876543210" "CRM" "Naukri" "Pending"
                "Telephonic" "REQ-1" [] in
  let w :=
    mkWorld initialState []
            [Resolves []; Resolves [jane]; Resolves [jane]] [] in
  lookup pageStage (getHRPage "/pages/hr/telephonic.html")
    = Some "Telephonic"
  /\ trace (run (init "/pages/hr/telephonic.html" ;;
                 handleRequirementFilter "REQ-1") w)
     = [ Call (requirementsGetAll "Approved");
         ShowLoadingOverlay "Loading Telephonic candidates...";
         Call (getByStage "Telephonic");
         RenderCandidatesTable [jane] "Telephonic";
         HideLoadingOverlay;
         ShowLoadingOverlay "Filtering candidates...";
         Call (getByRequirement "REQ-1");
         RenderCandidatesTable [] "telephonic";
         HideLoadingOverlay ].
Proof. split; reflexivity. Qed.

End Pipeline.

(** ** The gateway: [request] and the token refresh *)

Section GatewayFacts.

Import JS API.

Variable P : Platform.

Lemma fetch_log (endpoint method : string) (w : World) :
  log (snd (fetch endpoint method w))
  = log w ++ [EvFetch endpoint method].
Proof. unfold fetch. now destruct (script w). Qed.

Lemma fetch_responds (endpoint method : string) (w w1 : World)
      (r : Response) :
  fetch endpoint method w = (Responds r, w1) ->
  script w = Responds r :: script w1.
Proof.
  unfold fetch. destruct (script w) as [|o rest]; [discriminate|].
  now intros [= -> <-].
Qed.

(** The refresh changes the world only through its request, and through
    the token it stores on success. *)
Lemma refreshTokenVia_inv
      (post : string -> World -> option (Result Value * World))
      (w w2 : World) (b : bool) :
  refreshTokenVia P post w = Some (b, w2) ->
  exists res w1,
    post "/auth/refresh-token" w = Some (res, w1)
    /\ script w2 = script w1
    /\ (log w2 = log w1
        \/ exists token, b = true /\ log w2 = log w1 ++ [EvSetToken token]).
Proof.
  unfold refreshTokenVia.
  destruct (post "/auth/refresh-token" w) as [[res w1]|]; [|discriminate].
  intros H. exists res, w1. split; [reflexivity|].
  destruct res as [result|e]; [|injection H as <- <-; auto].
  destruct (get P result "success") as [success|e];
    [|injection H as <- <-; auto].
  destruct (truthy success); [|injection H as <- <-; auto].
  destruct (bind (get P result "data") (fun d => get P d "token"))
    as [token|e]; injection H as <- <-; [|auto].
  split; [reflexivity|]. right. now exists token.
Qed.

(** *** Enough fuel *)

Lemma requestN_enough (fuel : nat) :
  forall (endpoint method : string) (w : World),
    length (script w) < fuel ->
    exists r, requestN P fuel endpoint method w = Some r.
Proof.
  induction fuel as [|fuel IH]; intros endpoint method w Hlen; [lia|].
  cbn [requestN].
  destruct (fetch endpoint method w) as [[|response] w1] eqn:Hfetch;
    [eauto|].
  destruct (status response =? 401)%Z; [|eauto].
  apply fetch_responds in Hfetch. rewrite Hfetch in Hlen. cbn in Hlen.
  unfold refreshTokenVia.
  destruct (IH "/auth/refresh-token" "POST" w1 ltac:(lia)) as [[res w2] ->].
  destruct res as [result|e]; [|eauto].
  destruct (get P result "success") as [success|e]; [|eauto].
  destruct (truthy success); [|eauto].
  destruct (bind (get P result "data") (fun d => get P d "token"));
    [|eauto].
  destruct (fetch endpoint method _) as [[|retry] w3]; eauto.
Qed.

(** Against a script, [request] has a result. *)
Lemma request_total (endpoint method : string) (w : World) :
  exists r, request P endpoint method w = Some r.
Proof. apply requestN_enough. lia. Qed.

(** *** What is fetched *)

Lemma fetches_app (a b : list NetEvent) :
  fetches (a ++ b) = fetches a ++ fetches b.
Proof.
  induction a as [|e a IH]; [reflexivity|].
  destruct e; cbn; rewrite ?IH; reflexivity.
Qed.

Lemma logoutStarted_log (w : World) :
  log (logoutStarted w)
  = log w ++ [EvLogout; EvFetch "/auth/logout" "POST"].
Proof.
  unfold logoutStarted. rewrite fetch_log. cbn [emit log].
  now rewrite <- app_assoc.
Qed.

Lemma logoutStarted_script (w : World) :
  script (logoutStarted w) = tl (script w).
Proof.
  unfold logoutStarted, fetch, emit. cbn [script].
  now destruct (script w).
Qed.

(** A request to the refresh endpoint fetches nothing but the refresh
    endpoint and the logout endpoint, however deep the refreshes nest. *)
Lemma refresh_request_fetches (fuel : nat) :
  forall (w w' : World) (res : Result Value),
    requestN P fuel "/auth/refresh-token" "POST" w = Some (res, w') ->
    exists evs,
      log w' = log w ++ evs
      /\ Forall (fun e => In e authEndpoints) (fetches evs).
Proof.
  assert (Hrefresh : In "/auth/refresh-token" authEndpoints)
    by (left; reflexivity).
  assert (Hlogout : In "/auth/logout" authEndpoints)
    by (right; left; reflexivity).
  induction fuel as [|fuel IH]; intros w w' res H; [discriminate|].
  cbn [requestN] in H.
  pose proof (fetch_log "/auth/refresh-token" "POST" w) as Hlog.
  destruct (fetch "/auth/refresh-token" "POST" w) as [[|response] w1].
  { injection H as <- <-. cbn [snd] in Hlog. eexists.
    split; [exact Hlog|]. repeat constructor; exact Hrefresh. }
  cbn [snd] in Hlog.
  destruct (status response =? 401)%Z.
  2: { injection H as <- <-. eexists.
       split; [exact Hlog|]. repeat constructor; exact Hrefresh. }
  destruct (refreshTokenVia P _ w1) as [[b w2]|] eqn:Href; [|discriminate].
  apply refreshTokenVia_inv in Href as (r & w1' & Hreq & _ & Hlog2).
  apply IH in Hreq as (evs & Hlog1 & Hall).
  assert (exists evs2,
             log w2 = log w ++ evs2
             /\ Forall (fun e => In e authEndpoints) (fetches evs2))
    as (evs2 & Hw2 & Hall2).
  { destruct Hlog2 as [->|(token & _ & ->)]; rewrite Hlog1, Hlog.
    - eexists. rewrite <- app_assoc. split; [reflexivity|].
      cbn [app fetches]. now constructor.
    - eexists. rewrite <- !app_assoc. split; [reflexivity|].
      cbn [app fetches]. constructor; [exact Hrefresh|].
      rewrite fetches_app. cbn [fetches]. now rewrite app_nil_r. }
  destruct b.
  - pose proof (fetch_log "/auth/refresh-token" "POST" w2) as Hlog3.
    destruct (fetch "/auth/refresh-token" "POST" w2) as [[|retry] w3];
      injection H as <- <-; cbn [snd] in Hlog3;
      rewrite Hlog3, Hw2, <- app_assoc; eexists;
      (split; [reflexivity|]); rewrite fetches_app; cbn [fetches];
      apply Forall_app; split; auto.
  - injection H as <- <-. rewrite logoutStarted_log, Hw2, <- app_assoc.
    eexists. split; [reflexivity|]. rewrite fetches_app. cbn [fetches].
    apply Forall_app. split; auto.
Qed.

Lemma count_occ_auth (endpoint : string) (l : list string) :
  ~ In endpoint authEndpoints ->
  Forall (fun e => In e authEndpoints) l ->
  count_occ string_dec l endpoint = 0.
Proof.
  intros Hne Hall. apply count_occ_not_In. intros Hin.
  rewrite Forall_forall in Hall. now apply Hall in Hin.
Qed.

(** A request to an endpoint of the application fetches that endpoint at
    most twice. *)
Lemma request_fetches_twice (fuel : nat) (endpoint method : string)
      (w w' : World) (res : Result Value) :
  ~ In endpoint authEndpoints ->
  requestN P fuel endpoint method w = Some (res, w') ->
  exists evs,
    log w' = log w ++ evs
    /\ count_occ string_dec (fetches evs) endpoint <= 2.
Proof.
  intros Hne H. destruct fuel as [|fuel]; [discriminate|].
  cbn [requestN] in H.
  pose proof (fetch_log endpoint method w) as Hlog.
  destruct (fetch endpoint method w) as [[|response] w1];
    cbn [snd] in Hlog.
  { injection H as <- <-. eexists. split; [exact Hlog|].
    cbn. destruct (string_dec endpoint endpoint); lia. }
  destruct (status response =? 401)%Z.
  2: { injection H as <- <-. eexists. split; [exact Hlog|].
       cbn. destruct (string_dec endpoint endpoint); lia. }
  destruct (refreshTokenVia P _ w1) as [[b w2]|] eqn:Href; [|discriminate].
  apply refreshTokenVia_inv in Href as (r & w1' & Hreq & _ & Hlog2).
  apply refresh_request_fetches in Hreq as (evs & Hlog1 & Hall).
  assert (exists evs2,
             log w2 = log w ++ EvFetch endpoint method :: evs2
             /\ count_occ string_dec (fetches evs2) endpoint = 0)
    as (evs2 & Hw2 & Hcount).
  { destruct Hlog2 as [->|(token & _ & ->)]; rewrite Hlog1, Hlog.
    - exists evs. rewrite <- app_assoc. split; [reflexivity|].
      now apply count_occ_auth.
    - exists (evs ++ [EvSetToken token]). rewrite <- !app_assoc.
      split; [reflexivity|]. rewrite fetches_app. cbn [fetches].
      rewrite app_nil_r. now apply count_occ_auth. }
  destruct b.
  - pose proof (fetch_log endpoint method w2) as Hlog3.
    destruct (fetch endpoint method w2) as [[|retry] w3];
      injection H as <- <-; cbn [snd] in Hlog3;
      rewrite Hlog3, Hw2, <- app_assoc; eexists;
      (split; [reflexivity|]); cbn [app fetches];
      rewrite fetches_app; cbn [fetches];
      rewrite count_occ_cons_eq, count_occ_app, Hcount by reflexivity;
      cbn; destruct (string_dec endpoint endpoint); lia.
  - injection H as <- <-. rewrite logoutStarted_log, Hw2, <- app_assoc.
    eexists. split; [reflexivity|]. cbn [app fetches].
    rewrite fetches_app. cbn [fetches].
    rewrite count_occ_cons_eq, count_occ_app, Hcount by reflexivity.
    assert (Hl : endpoint <> "/auth/logout")
      by (intros ->; apply Hne; right; left; reflexivity).
    cbn [count_occ]. destruct (string_dec "/auth/logout" endpoint); [|lia].
    now contradiction Hl.
Qed.

(** *** The two ways out of a 401 *)

Lemma requestN_S (fuel : nat) (endpoint method : string) (w : World) :
  requestN P (S fuel) endpoint method w
  = match fetch endpoint method w with
    | (Unreachable, w1) => Some (Throw NetworkError, w1)
    | (Responds response, w1) =>
        if (status response =? 401)%Z then
          match refreshTokenVia P
                  (fun e => requestN P fuel e "POST") w1 with
          | None => None
          | Some (true, w2) =>
              match fetch endpoint method w2 with
              | (Unreachable, w3) => Some (Throw NetworkError, w3)
              | (Responds retryResponse, w3) =>
                  Some (handleResponse P retryResponse, w3)
              end
          | Some (false, w2) =>
              Some (Throw sessionExpired, logoutStarted w2)
          end
        else Some (handleResponse P response, w1)
    end.
Proof. reflexivity. Qed.

Lemma fetch_cons (endpoint method : string) (o : FetchOutcome)
      (rest : list FetchOutcome) (lg : list NetEvent) :
  fetch endpoint method (mkWorld (o :: rest) lg)
  = (o, mkWorld rest (lg ++ [EvFetch endpoint method])).
Proof. reflexivity. Qed.

(** The refresh is granted: the request is fetched once more and the
    answer to that second fetch is handled as the answer. *)
Lemma request_retry (endpoint method : string) (first retry : Response)
      (token : Value) (rest : list FetchOutcome) (lg : list NetEvent) :
  status first = 401%Z ->
  request P endpoint method
    (mkWorld (Responds first :: Responds (refreshGranted token)
              :: Responds retry :: rest) lg)
  = Some (handleResponse P retry,
          mkWorld rest
            (lg ++ [EvFetch endpoint method;
                    EvFetch "/auth/refresh-token" "POST";
                    EvSetToken token;
                    EvFetch endpoint method])).
Proof.
  intros Hfirst. unfold request. cbn [script length requestN].
  unfold fetch at 1. cbn [script log]. rewrite Hfirst. cbn [Z.eqb Pos.eqb].
  unfold refreshTokenVia, fetch, emit. cbn.
  now rewrite <- !app_assoc.
Qed.

(** The refresh fails: logout is called, its request is fetched, and the
    session-expired error is thrown. *)
Lemma request_refresh_failed (endpoint method : string) (first : Response)
      (rest : list FetchOutcome) (lg : list NetEvent) (w2 : World) :
  status first = 401%Z ->
  refreshToken P (mkWorld rest (lg ++ [EvFetch endpoint method]))
    = Some (false, w2) ->
  request P endpoint method (mkWorld (Responds first :: rest) lg)
  = Some (Throw sessionExpired,
          mkWorld (tl (script w2))
                  (log w2 ++ [EvLogout; EvFetch "/auth/logout" "POST"])).
Proof.
  intros Hfirst Hrefresh. unfold request. cbn [script length].
  rewrite requestN_S, fetch_cons, Hfirst. cbn [Z.eqb Pos.eqb].
  unfold refreshToken, refreshTokenN in Hrefresh. cbn [script] in Hrefresh.
  rewrite Hrefresh. do 2 f_equal.
  pose proof (logoutStarted_log w2) as Hl.
  pose proof (logoutStarted_script w2) as Hs.
  destruct (logoutStarted w2) as [sc lg']. cbn [log script] in Hl, Hs.
  now rewrite Hl, Hs.
Qed.

(** C3, amended: when the first answer is 401 and the token refresh is
    granted, the request is fetched a second time and the answer to that
    fetch is the result: returned to the caller when it is a success,
    thrown as an ordinary request error, without logout, when it is not
    (a second 401 included).  When the token refresh fails, logout is
    called, which fetches the logout endpoint and takes the next answer of
    the remote side for it, and the session-expired error is thrown.  A
    request to an endpoint other than the refresh and logout endpoints
    fetches its endpoint at most twice. *)
Theorem unauthorized_refresh_and_retry (endpoint method : string) :
  (forall (first retry : Response) (token : Value)
          (rest : list FetchOutcome) (lg : list NetEvent),
      status first = 401%Z ->
      request P endpoint method
        (mkWorld (Responds first :: Responds (refreshGranted token)
                  :: Responds retry :: rest) lg)
      = Some (handleResponse P retry,
              mkWorld rest
                (lg ++ [EvFetch endpoint method;
                        EvFetch "/auth/refresh-token" "POST";
                        EvSetToken token;
                        EvFetch endpoint method])))
  /\ (forall (first : Response) (rest : list FetchOutcome)
             (lg : list NetEvent) (w2 : World),
         status first = 401%Z ->
         refreshToken P (mkWorld rest (lg ++ [EvFetch endpoint method]))
           = Some (false, w2) ->
         request P endpoint method (mkWorld (Responds first :: rest) lg)
         = Some (Throw sessionExpired,
                 mkWorld (tl (script w2))
                         (log w2
                          ++ [EvLogout; EvFetch "/auth/logout" "POST"])))
  /\ (forall (w w' : World) (res : Result Value),
         ~ In endpoint authEndpoints ->
         request P endpoint method w = Some (res, w') ->
         exists evs,
           log w' = log w ++ evs
           /\ count_occ string_dec (fetches evs) endpoint <= 2).
Proof.
  split; [apply request_retry|].
  split; [apply request_refresh_failed|].
  intros w w' res Hne H. exact (request_fetches_twice _ _ _ _ _ _ Hne H).
Qed.

End GatewayFacts.

(** C3, the run that separates the code from the claim as written: the
    first answer is 401, the refresh is granted, and the second fetch is
    answered 401 again.  The error of that answer is thrown as it is; logout
    is not invoked and the error is not the session-expired error. *)
Lemma second_unauthorized_without_logout :
  let w :=
    API.mkWorld [API.Responds API.unauthorized;
                 API.Responds (API.refreshGranted (JS.VStr "t2"));
                 API.Responds API.unauthorized] [] in
  API.request JS.barePlatform "/hr/candidates" "GET" w
  = Some (JS.Throw (JS.Err (JS.VStr "Unauthorized") (Some 401%Z)),
          API.mkWorld []
            [API.EvFetch "/hr/candidates" "GET";
             API.EvFetch "/auth/refresh-token" "POST";
             API.EvSetToken (JS.VStr "t2");
             API.EvFetch "/hr/candidates" "GET"])
  /\ JS.Err (JS.VStr "Unauthorized") (Some 401%Z) <> API.sessionExpired
  /\ ~ In API.EvLogout
          [API.EvFetch "/hr/candidates" "GET";
           API.EvFetch "/auth/refresh-token" "POST";
           API.EvSetToken (JS.VStr "t2");
           API.EvFetch "/hr/candidates" "GET"].
Proof.
  cbv zeta. split; [reflexivity|]. split; [discriminate|].
  intros [H|[H|[H|[H|[]]]]]; discriminate.
Qed.

Lemma unauthorized_refresh_and_retry_witness :
  API.status API.unauthorized = 401%Z
  /\ API.request JS.barePlatform "/hr/candidates" "GET"
       (API.mkWorld
          [API.Responds API.unauthorized;
           API.Responds (API.refreshGranted (JS.VStr "t2"));
           API.Responds
             (API.mkResponse 200
                (API.JsonBody (JS.VObj [("data", JS.VArr [])])))] [])
     = Some (JS.Ok (JS.VObj [("data", JS.VArr [])]),
             API.mkWorld []
               [API.EvFetch "/hr/candidates" "GET";
                API.EvFetch "/auth/refresh-token" "POST";
                API.EvSetToken (JS.VStr "t2");
                API.EvFetch "/hr/candidates" "GET"])
  /\ API.request JS.barePlatform "/hr/candidates" "GET"
       (API.mkWorld
          [API.Responds API.unauthorized;
           API.Responds (API.mkResponse 500 (API.TextBody "down"));
           API.Responds (API.mkResponse 200 (API.TextBody "bye"));
           API.Unreachable] [])
     = Some (JS.Throw API.sessionExpired,
             API.mkWorld [API.Unreachable]
               [API.EvFetch "/hr/candidates" "GET";
                API.EvFetch "/auth/refresh-token" "POST";
                API.EvLogout;
                API.EvFetch "/auth/logout" "POST"])
  /\ exists evs,
      [API.EvFetch "/hr/candidates" "GET"] = [] ++ evs
      /\ count_occ string_dec (API.fetches evs) "/hr/candidates" <= 2.
Proof.
  split; [reflexivity|].
  destruct (unauthorized_refresh_and_retry JS.barePlatform
              "/hr/candidates" "GET") as (Hretry & Hfailed & Htwice).
  split; [|split].
  - apply (Hretry API.unauthorized
                  (API.mkResponse 200
                     (API.JsonBody (JS.VObj [("data", JS.VArr [])])))
                  (JS.VStr "t2") [] []).
    reflexivity.
  - apply (Hfailed API.unauthorized
                   [API.Responds (API.mkResponse 500 (API.TextBody "down"));
                    API.Responds (API.mkResponse 200 (API.TextBody "bye"));
                    API.Unreachable]
                   []
                   (API.mkWorld
                      [API.Responds
                         (API.mkResponse 200 (API.TextBody "bye"));
                       API.Unreachable]
                      [API.EvFetch "/hr/candidates" "GET";
                       API.EvFetch "/auth/refresh-token" "POST"])).
    + reflexivity.
    + reflexivity.
  - apply (Htwice (API.mkWorld [] [])
                   (API.mkWorld [] [API.EvFetch "/hr/candidates" "GET"])
                   (JS.Throw JS.NetworkError)).
    + intros [H|[H|[]]]; discriminate.
    + reflexivity.
Defined.

(** ** More on intake: file names, extensions, the selection *)

Section IntakeMore.

Import JSString HR.
Local Open Scope hr_scope.

Lemma append_assoc (s t u : string) :
  ((s ++ t) ++ u)%string = (s ++ t ++ u)%string.
Proof. induction s as [|c s IH]; cbn; congruence. Qed.

Lemma all_app (p : ascii -> bool) (s t : string) :
  all p (s ++ t) = all p s && all p t.
Proof.
  induction s as [|c s IH]; [reflexivity|].
  cbn. now rewrite IH, andb_assoc.
Qed.

Lemma all_impl (p q : ascii -> bool) (s : string) :
  (forall c, p c = true -> q c = true) ->
  all p s = true -> all q s = true.
Proof.
  intros Hpq. induction s as [|c s IH]; [reflexivity|].
  cbn. rewrite !andb_true_iff. intros [Hc Hs]. auto.
Qed.

Lemma all_trimStart (p : ascii -> bool) (s : string) :
  all p s = true -> all p (trimStart s) = true.
Proof.
  induction s as [|c s IH]; [reflexivity|].
  cbn [trimStart]. destruct (isSpace c); [|auto].
  cbn. rewrite andb_true_iff. intros [_ H]. auto.
Qed.

Lemma all_trimEnd (p : ascii -> bool) (s : string) :
  all p s = true -> all p (trimEnd s) = true.
Proof.
  induction s as [|c s IH]; [reflexivity|].
  cbn [trimEnd all]. rewrite andb_true_iff. intros [Hc Hs].
  destruct (isSpace c && isEmpty (trimEnd s)); [reflexivity|].
  cbn. now rewrite Hc, IH.
Qed.

Lemma all_trim (p : ascii -> bool) (s : string) :
  all p s = true -> all p (trim s) = true.
Proof. intros H. apply all_trimEnd, all_trimStart, H. Qed.

Lemma trimEnd_idempotent (s : string) : trimEnd (trimEnd s) = trimEnd s.
Proof.
  induction s as [|c s IH]; [reflexivity|].
  cbn [trimEnd].
  destruct (isSpace c && isEmpty (trimEnd s)) eqn:Hcut; [reflexivity|].
  cbn [trimEnd]. now rewrite IH, Hcut.
Qed.

Lemma trimStart_headed (s : string) : headed (trimStart s).
Proof.
  induction s as [|c s IH]; [exact I|].
  cbn [trimStart]. destruct (isSpace c) eqn:Hc; [exact IH|exact Hc].
Qed.

Lemma headed_trimStart (s : string) : headed s -> trimStart s = s.
Proof. destruct s as [|c s]; [reflexivity|]. cbn. now intros ->. Qed.

Lemma headed_trimEnd (s : string) : headed s -> headed (trimEnd s).
Proof.
  destruct s as [|c s]; [exact (fun H => H)|].
  intros H. cbn in H. cbn. rewrite H. cbn. exact H.
Qed.

(** Trimming twice is trimming once. *)
Lemma trim_idempotent (s : string) : trim (trim s) = trim s.
Proof.
  unfold trim.
  rewrite (headed_trimStart (trimEnd (trimStart s)))
    by apply headed_trimEnd, trimStart_headed.
  apply trimEnd_idempotent.
Qed.

Lemma trimEnd_no_space (s : string) :
  all (fun c => negb (isSpace c)) s = true -> trimEnd s = s.
Proof.
  induction s as [|c s IH]; [reflexivity|].
  cbn [all trimEnd]. rewrite andb_true_iff. intros [Hc Hs].
  apply negb_true_iff in Hc. rewrite Hc. cbn. now rewrite IH.
Qed.

Lemma trim_no_space (s : string) :
  all (fun c => negb (isSpace c)) s = true -> trim s = s.
Proof.
  intros H. unfold trim. rewrite headed_trimStart.
  - now apply trimEnd_no_space.
  - destruct s as [|c s]; [exact I|]. cbn in *.
    apply andb_true_iff in H as [H _]. now apply negb_true_iff.
Qed.

Lemma digit_not_space (c : ascii) : isDigit c = true -> isSpace c = false.
Proof.
  unfold isDigit, isSpace. rewrite andb_true_iff, !Nat.leb_le.
  intros [Hlo Hhi].
  destruct (Nat.leb_spec 9 (code c)), (Nat.leb_spec (code c) 13),
    (Nat.eqb_spec (code c) 32), (Nat.eqb_spec (code c) 160);
    cbn; try reflexivity; lia.
Qed.

Lemma digit_not_underscore (c : ascii) :
  isDigit c = true -> negb (Ascii.eqb c "_") = true.
Proof.
  intros H. destruct (Ascii.eqb_spec c "_") as [->|]; [discriminate|].
  reflexivity.
Qed.

Lemma split_app_sep (sep : ascii) (s t : string) :
  all (fun d => negb (Ascii.eqb d sep)) s = true ->
  split sep (s ++ String sep t) = s :: split sep t.
Proof.
  induction s as [|c s IH]; cbn [all append split].
  - intros _. now rewrite Ascii.eqb_refl.
  - rewrite andb_true_iff. intros [Hc Hs]. apply negb_true_iff in Hc.
    now rewrite Hc, (IH Hs).
Qed.

Lemma split_free (sep : ascii) (s : string) :
  all (fun d => negb (Ascii.eqb d sep)) s = true -> split sep s = [s].
Proof.
  induction s as [|c s IH]; [reflexivity|].
  cbn [all split]. rewrite andb_true_iff. intros [Hc Hs].
  apply negb_true_iff in Hc. now rewrite Hc, (IH Hs).
Qed.

(** A final dot with a non-empty dot-free rest is what [stripExtension]
    cuts. *)
Lemma stripExtension_app (base ext : string) :
  ext <> EmptyString ->
  all (fun d => negb (Ascii.eqb d ".")) ext = true ->
  stripExtension (base ++ String "." ext) = base.
Proof.
  intros Hne Hfree. induction base as [|c base IH].
  - cbn [append stripExtension]. rewrite Hfree.
    destruct ext; [contradiction|reflexivity].
  - cbn [append stripExtension]. rewrite IH.
    rewrite all_app. cbn [all]. rewrite Ascii.eqb_refl. cbn [negb andb].
    now rewrite andb_false_r, andb_false_r.
Qed.

(** X1: a file name built as Name_Mobile_Source.ext parses back to its
    three parts, when the name holds no underscore, name and source have
    no white space around them (both may be empty, and the source may hold
    underscores and dots), the mobile is ten digits and the extension is
    not empty and holds no dot. *)
Theorem parseFilename_roundtrip (n m s ext : string) :
  all (fun d => negb (Ascii.eqb d "_")) n = true ->
  trim n = n ->
  isTenDigits m = true ->
  trim s = s ->
  ext <> EmptyString ->
  all (fun d => negb (Ascii.eqb d ".")) ext = true ->
  parseFilename (n ++ "_" ++ m ++ "_" ++ s ++ "." ++ ext)
  = Some (mkParsed n m s).
Proof.
  intros Hn Htn Hm Hts Hext Hfree.
  pose proof Hm as Hm'. apply isTenDigits_spec in Hm' as [_ Hdig].
  unfold parseFilename.
  replace (n ++ "_" ++ m ++ "_" ++ s ++ "." ++ ext)%string
    with ((n ++ "_" ++ m ++ "_" ++ s) ++ String "." ext)%string
    by (rewrite !append_assoc; reflexivity).
  rewrite (stripExtension_app _ _ Hext Hfree).
  change (n ++ "_" ++ m ++ "_" ++ s)%string
    with (n ++ String "_" (m ++ String "_" s))%string.
  rewrite (split_app_sep "_" n _ Hn), (split_app_sep "_" m s)
    by (eapply all_impl; [apply digit_not_underscore|exact Hdig]).
  pose proof (split_not_nil "_" s) as Hnil.
  pose proof (join_split "_" s) as Hjoin.
  destruct (split "_" s) as [|seg rest] eqn:Hsplit; [contradiction|].
  cbn [length Nat.ltb Nat.leb nth skipn].
  rewrite Htn.
  rewrite (trim_no_space m)
    by (eapply all_impl; [|exact Hdig];
        intros c Hc; now rewrite (digit_not_space c Hc)).
  rewrite Hm. cbn [negb]. now rewrite Hjoin, Hts.
Qed.

Lemma parseFilename_roundtrip_witness :
  parseFilename ("Jane Doe" ++ "_" ++ "9876543210" ++ "_" ++ "Work_India.v2"
                 ++ "." ++ "docx")
  = Some (mkParsed "Jane Doe" "9876543210" "Work_India.v2").
Proof.
  apply (parseFilename_roundtrip "Jane Doe" "9876543210" "Work_India.v2"
                                 "docx");
    try reflexivity. discriminate.
Defined.

(** X2: whatever file name is accepted, the mobile it yields is exactly ten
    digits, the name holds no underscore, and name, mobile and source have
    no white space around them. *)
Theorem parseFilename_wellformed (filename : string) (p : Parsed) :
  parseFilename filename = Some p ->
  isTenDigits (p_mobile p) = true
  /\ all (fun d => negb (Ascii.eqb d "_")) (p_name p) = true
  /\ trim (p_name p) = p_name p
  /\ trim (p_mobile p) = p_mobile p
  /\ trim (p_source p) = p_source p.
Proof.
  unfold parseFilename.
  pose proof (split_segments_free "_" (stripExtension filename)) as Hfree.
  destruct (split "_" (stripExtension filename)) as [|s1 [|s2 [|s3 rest]]];
    cbn [length Nat.ltb Nat.leb nth skipn]; try discriminate.
  destruct (isTenDigits (trim s2)) eqn:Hten; cbn [negb]; [|discriminate].
  intros [= <-]. cbn [p_name p_mobile p_source].
  split; [exact Hten|]. split.
  - apply all_trim, Hfree. now left.
  - split; [apply trim_idempotent|].
    split; apply trim_idempotent.
Qed.

Lemma parseFilename_wellformed_witness :
  isTenDigits "9876543210" = true
  /\ trim "Jane" = "Jane".
Proof.
  destruct (parseFilename_wellformed
              " Jane _ 9876543210_Naukri.pdf"
              (mkParsed "Jane" "9876543210" "Naukri") eq_refl)
    as (H1 & _ & H2 & _).
  split; assumption.
Defined.

(** *** The extension of an accepted file *)

Lemma stripExtension_free (s : string) :
  all (fun d => negb (Ascii.eqb d ".")) s = true -> stripExtension s = s.
Proof.
  induction s as [|c s IH]; [reflexivity|].
  cbn [all stripExtension]. rewrite andb_true_iff. intros [Hc Hs].
  apply negb_true_iff in Hc. rewrite Hc. cbn [andb]. now rewrite IH.
Qed.

Lemma lower_keeps_underscore (s : string) :
  all (fun d => negb (Ascii.eqb d "_")) (toLowerCase s) = true ->
  all (fun d => negb (Ascii.eqb d "_")) s = true.
Proof.
  induction s as [|c s IH]; [reflexivity|].
  cbn [toLowerCase all]. rewrite !andb_true_iff. intros [Hc Hs].
  split; [|auto].
  destruct (Ascii.eqb_spec c "_") as [->|]; [discriminate Hc|reflexivity].
Qed.

Lemma join_snoc (sep : string) (init : list string) (e : string) :
  init <> [] ->
  join sep (init ++ [e]) = (join sep init ++ sep ++ e)%string.
Proof.
  induction init as [|p init IH]; [contradiction|]. intros _.
  destruct init as [|q init].
  - reflexivity.
  - change (join sep ((p :: q :: init) ++ [e]))
      with (p ++ sep ++ join sep ((q :: init) ++ [e]))%string.
    rewrite IH by discriminate.
    rewrite join_cons, !append_assoc. reflexivity.
Qed.

Lemma isValidFileType_cv (filename : string) :
  Utils.isValidFileType filename CONFIG.ALLOWED_CV_EXTENSIONS = true ->
  In (toLowerCase (pop (split "." filename))) ["pdf"; "doc"; "docx"].
Proof.
  unfold Utils.isValidFileType, Utils.arrayIncludes,
    CONFIG.ALLOWED_CV_EXTENSIONS.
  cbn [existsb append]. rewrite !orb_true_iff, !String.eqb_eq.
  intros [H|[H|[H|H]]]; try discriminate;
    injection H as H; rewrite H; cbn; tauto.
Qed.

(** X3: an accepted file really has one of the extensions pdf, doc, docx
    (in any letter case) after its last dot, and what [parseFilename] reads
    is the name without that dot and extension.  (A name without any dot,
    such as [pdf], passes [isValidFileType] alone, but never the parse.) *)
Theorem accepted_file_extension (f : File) (entry : FileData) :
  checkFile f = inl entry ->
  exists base ext,
    file_name f = (base ++ "." ++ ext)%string
    /\ In (toLowerCase ext) ["pdf"; "doc"; "docx"]
    /\ stripExtension (file_name f) = base.
Proof.
  unfold checkFile.
  destruct (Utils.isValidFileType _ _) eqn:Htype; cbn [negb]; [|discriminate].
  destruct (Utils.isValidFileSize _); cbn [negb]; [|discriminate].
  destruct (parseFilename (file_name f)) as [parsed|] eqn:Hparse;
    [|discriminate].
  intros _. apply isValidFileType_cv in Htype.
  pose proof (split_not_nil "." (file_name f)) as Hnil.
  pose proof (join_split "." (file_name f)) as Hjoin.
  pose proof (split_segments_free "." (file_name f)) as Hfree.
  unfold pop in Htype.
  destruct (exists_last Hnil) as (init & e & Hsegs).
  rewrite Hsegs, last_last in Htype. rewrite Hsegs in Hjoin, Hfree.
  assert (He : all (fun d => negb (Ascii.eqb d ".")) e = true)
    by (apply Hfree, in_or_app; right; now left).
  assert (Hne : e <> EmptyString)
    by (intros ->; cbn in Htype; intuition discriminate).
  destruct init as [|p init].
  - exfalso. cbn in Hjoin. subst e.
    assert (Hus : all (fun d => negb (Ascii.eqb d "_")) (file_name f) = true).
    { apply lower_keeps_underscore.
      destruct Htype as [<-|[<-|[<-|[]]]]; reflexivity. }
    unfold parseFilename in Hparse.
    rewrite (stripExtension_free _ He), (split_free _ _ Hus) in Hparse.
    discriminate.
  - rewrite join_snoc in Hjoin by discriminate.
    exists (join "." (p :: init)), e. split; [now rewrite <- Hjoin|].
    split; [exact Htype|].
    rewrite <- Hjoin. now apply stripExtension_app.
Qed.

Lemma accepted_file_extension_witness :
  exists base ext,
    "Jane_9876543210_Naukri.v2.PDF" = (base ++ "." ++ ext)%string
    /\ In (toLowerCase ext) ["pdf"; "doc"; "docx"]
    /\ stripExtension "Jane_9876543210_Naukri.v2.PDF" = base.
Proof.
  exact (accepted_file_extension
           (mkFile "Jane_9876543210_Naukri.v2.PDF" 1024 "")
           (mkFileData (mkFile "Jane_9876543210_Naukri.v2.PDF" 1024 "")
                       "Jane" "9876543210" "Naukri.v2"
                       "Jane_9876543210_Naukri.v2.PDF")
           eq_refl).
Defined.

(** *** The selection: upload and removal *)

(** X4: an upload that fails keeps the selected files (and the whole
    state), so that it can be tried again; an upload that succeeds empties
    the selection and touches nothing else of the state. *)
Theorem upload_outcome (w : World) (requirementId : string) :
  selectedFiles (state w) <> [] ->
  isEmpty requirementId = false ->
  (nextOutcome w = Rejects ->
   state (run (handleCVUpload requirementId) w) = state w)
  /\ (forall data, nextOutcome w = Resolves data ->
        state (run (handleCVUpload requirementId) w)
        = mkState (candidates (state w)) (selectedCandidateId (state w))
                  (currentStage (state w)) []
                  (rejectionOnSubmit (state w))).
Proof.
  destruct w as [s ms r t]. cbn [state]. intros Hsel Hreq.
  unfold nextOutcome, handleCVUpload. hr_unfold. cbn [state remote].
  destruct (selectedFiles s) as [|fd sel] eqn:Hs; [contradiction|].
  cbn [length Nat.eqb]. rewrite Hreq.
  destruct r as [|[|d] r]; cbn; rewrite ?Hs;
    (split; [intros H|intros data H]); try discriminate; try reflexivity.
  all: now destruct s; cbn in *; subst.
Qed.

Lemma upload_outcome_witness :
  let entry :=
    mkFileData (mkFile "Jane_9876543210_Naukri.pdf" 100 "")
               "Jane" "9876543210" "Naukri" "Jane_9876543210_Naukri.pdf" in
  let w := mkWorld (mkState [] None "cv-upload" [entry] false) []
                   [Rejects] [] in
  state (run (handleCVUpload "REQ-1") w) = state w.
Proof.
  intros entry w.
  apply (upload_outcome w "REQ-1"); [discriminate|reflexivity|reflexivity].
Defined.

Lemma spliceOne_past_end {A} (l : list A) (index : Z) :
  (Z.of_nat (length l) <= index)%Z -> spliceOne l index = l.
Proof.
  intros H. unfold spliceOne.
  destruct (Z.ltb_spec index 0); [lia|].
  rewrite Z.min_r by lia. rewrite Nat2Z.id.
  rewrite firstn_all, skipn_all2 by lia. apply app_nil_r.
Qed.

Lemma spliceOne_in_range {A} (l : list A) (index : Z) :
  (0 <= index < Z.of_nat (length l))%Z ->
  spliceOne l index
  = firstn (Z.to_nat index) l ++ skipn (S (Z.to_nat index)) l.
Proof.
  intros H. unfold spliceOne.
  destruct (Z.ltb_spec index 0); [lia|].
  now rewrite Z.min_l by lia.
Qed.

Lemma spliceOne_length {A} (l : list A) (index : Z) :
  (index < Z.of_nat (length l))%Z ->
  length (spliceOne l index) = pred (length l).
Proof.
  intros H. unfold spliceOne.
  rewrite length_app, length_firstn, length_skipn.
  destruct (Z.ltb_spec index 0); lia.
Qed.

Lemma removeFile_run (index : Z) (w : World) :
  run (removeFile index) w
  = mkWorld
      (mkState (candidates (state w)) (selectedCandidateId (state w))
               (currentStage (state w))
               (spliceOne (selectedFiles (state w)) index)
               (rejectionOnSubmit (state w)))
      (modals w) (remote w)
      (trace w
       ++ [UpdateFileList (spliceOne (selectedFiles (state w)) index)]).
Proof. destruct w as [s ms r t]. reflexivity. Qed.

(** X5: [removeFile(index)] removes exactly the entry at [index] and
    keeps the others in order when the index is in range; an index at or
    past the end removes nothing; a negative index removes one entry
    (counted from the end) whenever there is one.  The file list is
    rendered again in every case, and nothing is sent to the remote
    side. *)
Theorem removeFile_spec (index : Z) (w : World) :
  let before := selectedFiles (state w) in
  let after := selectedFiles (state (run (removeFile index) w)) in
  ((Z.of_nat (length before) <= index)%Z -> after = before)
  /\ ((0 <= index < Z.of_nat (length before))%Z ->
      after = firstn (Z.to_nat index) before
              ++ skipn (S (Z.to_nat index)) before)
  /\ ((index < Z.of_nat (length before))%Z ->
      length after = pred (length before))
  /\ trace (run (removeFile index) w) = trace w ++ [UpdateFileList after]
  /\ remote (run (removeFile index) w) = remote w.
Proof.
  cbv zeta. rewrite removeFile_run. cbn [state selectedFiles trace remote].
  repeat split.
  - apply spliceOne_past_end.
  - apply spliceOne_in_range.
  - apply spliceOne_length.
Qed.

Lemma removeFile_spec_witness :
  let a := mkFileData (mkFile "A_1234567890_X.pdf" 1 "") "A" "1234567890"
                      "X" "A_1234567890_X.pdf" in
  let b := mkFileData (mkFile "B_1234567890_Y.pdf" 1 "") "B" "1234567890"
                      "Y" "B_1234567890_Y.pdf" in
  let w := mkWorld (mkState [] None "cv-upload" [a; b] false) [] [] [] in
  selectedFiles (state (run (removeFile 0) w)) = [b]
  /\ selectedFiles (state (run (removeFile 2) w)) = [a; b]
  /\ length (selectedFiles (state (run (removeFile (-1)) w))) = 1.
Proof.
  intros a b w.
  destruct (removeFile_spec 0 w) as (_ & Hin & _).
  destruct (removeFile_spec 2 w) as (Hout & _).
  destruct (removeFile_spec (-1) w) as (_ & _ & Hneg & _).
  split; [|split].
  - apply Hin. cbn. lia.
  - apply Hout. cbn. lia.
  - apply Hneg. cbn. lia.
Defined.

(** X6: removing, right after [handleFiles] has accepted one file, the
    entry at the position where the selection ended before, gives back the
    selection as it was. *)
Theorem handleFiles_removeFile_roundtrip
        (f : File) (entry : FileData) (w : World) :
  checkFile f = inl entry ->
  selectedFiles
    (state (run (handleFiles [f] ;;
                 removeFile (Z.of_nat (length (selectedFiles (state w)))))
                w))
  = selectedFiles (state w).
Proof.
  intros Hcheck. rewrite run_seq. unfold run at 2.
  rewrite handleFiles_run, classify_verdicts. cbn [map]. rewrite Hcheck.
  cbn [lefts rights fst snd]. rewrite removeFile_run.
  cbn [state selectedFiles]. rewrite spliceOne_in_range
    by (rewrite length_app; cbn; lia).
  rewrite Nat2Z.id, firstn_app, firstn_all, Nat.sub_diag. cbn [firstn].
  rewrite skipn_all2 by (rewrite length_app; cbn; lia).
  now rewrite !app_nil_r.
Qed.

Lemma handleFiles_removeFile_roundtrip_witness :
  let f := mkFile "Jane_9876543210_Naukri.pdf" 100 "" in
  let w := mkWorld initialState [] [] [] in
  selectedFiles (state (run (handleFiles [f] ;; removeFile 0) w)) = [].
Proof.
  intros f w.
  exact (handleFiles_removeFile_roundtrip
           f (mkFileData f "Jane" "9876543210" "Naukri"
                         "Jane_9876543210_Naukri.pdf")
           w eq_refl).
Defined.

End IntakeMore.

(** ** More on the gateway *)

Section GatewayMore.

Import JSString JS API.

Variable P : Platform.

(** *** The query string of [get] *)

Lemma encodeChar_safe (c : ascii) : all urlSafe (encodeChar c) = true.
Proof.
  destruct c as [[|] [|] [|] [|] [|] [|] [|] [|]]; vm_compute; reflexivity.
Qed.

Lemma encodeURIComponent_safe (s : string) :
  all urlSafe (encodeURIComponent s) = true.
Proof.
  induction s as [|c s IH]; [reflexivity|].
  cbn [encodeURIComponent]. now rewrite all_app, encodeChar_safe, IH.
Qed.

Lemma urlSafe_not (sep c : ascii) :
  urlSafe sep = false -> urlSafe c = true -> negb (Ascii.eqb c sep) = true.
Proof.
  intros Hsep Hc. destruct (Ascii.eqb_spec c sep) as [->|]; [|reflexivity].
  congruence.
Qed.

Lemma encodeURIComponent_free (sep : ascii) (s : string) :
  urlSafe sep = false ->
  all (fun d => negb (Ascii.eqb d sep)) (encodeURIComponent s) = true.
Proof.
  intros Hsep. eapply all_impl; [|apply encodeURIComponent_safe].
  intros c. now apply urlSafe_not.
Qed.

(** Splitting undoes joining when no part holds the separator. *)
Lemma split_join (sep : ascii) (parts : list string) :
  parts <> [] ->
  Forall (fun p => all (fun d => negb (Ascii.eqb d sep)) p = true) parts ->
  split sep (join (String sep EmptyString) parts) = parts.
Proof.
  intros Hne Hall. induction Hall as [|p rest Hp Hrest IH]; [contradiction|].
  destruct rest as [|q rest].
  - cbn [join]. now apply split_free.
  - rewrite join_cons. cbn [append].
    rewrite (split_app_sep sep p _ Hp), IH by discriminate. reflexivity.
Qed.

Lemma encodePair_free (param : string * Scalar) :
  all (fun d => negb (Ascii.eqb d "&")) (encodePair param) = true.
Proof.
  unfold encodePair. rewrite !all_app, !encodeURIComponent_free by reflexivity.
  reflexivity.
Qed.

Lemma encodePair_split (param : string * Scalar) :
  split "=" (encodePair param)
  = [encodeURIComponent (fst param);
     encodeURIComponent (toText (snd param))].
Proof.
  unfold encodePair. cbn [append].
  rewrite split_app_sep by now apply encodeURIComponent_free.
  now rewrite split_free by now apply encodeURIComponent_free.
Qed.

Lemma join_not_empty (sep : string) (p : string) (rest : list string) :
  isEmpty p = false -> isEmpty (join sep (p :: rest)) = false.
Proof.
  destruct p as [|c p]; [discriminate|]. intros _.
  destruct rest; reflexivity.
Qed.

Lemma encodePair_not_empty (param : string * Scalar) :
  isEmpty (encodePair param) = false.
Proof.
  unfold encodePair. destruct (encodeURIComponent (fst param)); reflexivity.
Qed.

(** X7: [get] leaves out the parameters that are [null] or [undefined];
    with no parameter left the URL is the endpoint as it is, without a
    question mark; otherwise the query string reads back without
    ambiguity: splitting it at [&] gives one piece per parameter kept, in
    order, and splitting a piece at [=] gives the encoded key and the
    encoded value, because an encoded text holds neither [&] nor [=]. *)
Theorem query_string_structure
        (endpoint : string) (params : list (string * Scalar)) :
  (filter retained params = [] -> getUrl endpoint params = endpoint)
  /\ (filter retained params <> [] ->
      getUrl endpoint params
      = (endpoint ++ "?" ++ queryString params)%string
      /\ split "&" (queryString params)
         = map encodePair (filter retained params))
  /\ (forall param : string * Scalar,
         split "=" (encodePair param)
         = [encodeURIComponent (fst param);
            encodeURIComponent (toText (snd param))]).
Proof.
  unfold getUrl, queryString. split; [|split].
  - intros ->. reflexivity.
  - intros Hne. destruct (filter retained params) as [|p kept];
      [contradiction|].
    cbn [map]. rewrite join_not_empty by apply encodePair_not_empty.
    split; [reflexivity|].
    apply (split_join "&" (encodePair p :: map encodePair kept));
      [discriminate|].
    constructor; [apply encodePair_free|].
    apply Forall_forall. intros x Hx. apply in_map_iff in Hx as (q & <- & _).
    apply encodePair_free.
  - apply encodePair_split.
Qed.

Lemma query_string_structure_witness :
  getUrl "/hr/candidates/stage"
         [("stage", SStr "Schedule Interview"); ("page", SNull);
          ("q", SStr "a&b=c")]
  = "/hr/candidates/stage?stage=Schedule%20Interview&q=a%26b%3Dc"
  /\ split "&" (queryString
                  [("stage", SStr "Schedule Interview"); ("page", SNull);
                   ("q", SStr "a&b=c")])
     = ["stage=Schedule%20Interview"; "q=a%26b%3Dc"].
Proof.
  destruct (query_string_structure
              "/hr/candidates/stage"
              [("stage", SStr "Schedule Interview"); ("page", SNull);
               ("q", SStr "a&b=c")]) as (_ & H & _).
  apply H. discriminate.
Defined.

(** *** Answers other than 401 *)


(** X8: when the first answer is not a 401, or the network fails,
    [request] fetches once and that is all: no refresh, no token stored, no
    logout, no second fetch; the answer is handled as it is, and an answer
    that is not ok with a JSON object body is thrown with its status and
    its own message (or the default message when it has none). *)
Theorem request_without_retry (endpoint method : string) :
  (forall (response : Response) (rest : list FetchOutcome)
          (lg : list NetEvent),
      status response <> 401%Z ->
      request P endpoint method (mkWorld (Responds response :: rest) lg)
      = Some (handleResponse P response,
              mkWorld rest (lg ++ [EvFetch endpoint method])))
  /\ (forall (rest : list FetchOutcome) (lg : list NetEvent),
         request P endpoint method (mkWorld (Unreachable :: rest) lg)
         = Some (Throw NetworkError,
                 mkWorld rest (lg ++ [EvFetch endpoint method])))
  /\ (forall (response : Response) (props : list (string * Value)),
         ok response = false ->
         body response = JsonBody (VObj props) ->
         handleResponse P response
         = Throw (Err (orElse (getObj props "message")
                              (VStr "An error occurred"))
                      (Some (status response)))).
Proof.
  split; [|split].
  - intros response rest lg Hstatus. unfold request.
    cbn [script length]. rewrite requestN_S, fetch_cons.
    destruct (Z.eqb_spec (status response) 401); [contradiction|reflexivity].
  - intros rest lg. reflexivity.
  - intros response props Hok Hbody. unfold handleResponse.
    rewrite Hbody, Hok. reflexivity.
Qed.

(** *** A refresh endpoint that answers 401 *)

Lemma logoutStarted_world (sc : list FetchOutcome) (lg : list NetEvent) :
  logoutStarted (mkWorld sc lg)
  = mkWorld (tl sc) (lg ++ [EvLogout; EvFetch "/auth/logout" "POST"]).
Proof.
  unfold logoutStarted, fetch, emit. cbn [script log].
  destruct sc; cbn [tl snd script log]; now rewrite <- app_assoc.
Qed.

Lemma concat_repeat_comm {A} (l : list A) (k : nat) :
  concat (repeat l k) ++ l = l ++ concat (repeat l k).
Proof.
  induction k as [|k IH]; cbn [repeat concat].
  - now rewrite app_nil_r.
  - now rewrite <- app_assoc, IH.
Qed.

Lemma cascade_log (lg : list NetEvent) (first : NetEvent) (k : nat)
      (l : list NetEvent) :
  ((lg ++ [first])
   ++ repeat (EvFetch "/auth/refresh-token" "POST") (S k)
   ++ concat (repeat l k)) ++ l
  = lg ++ first :: repeat (EvFetch "/auth/refresh-token" "POST") (S k)
       ++ concat (repeat l (S k)).
Proof.
  rewrite <- !app_assoc. cbn [app]. do 2 f_equal.
  change (concat (repeat l (S k))) with (l ++ concat (repeat l k)).
  now rewrite concat_repeat_comm.
Qed.

Lemma refresh_cascade (k : nat) :
  forall (fuel : nat) (lg : list NetEvent),
    k < fuel ->
    exists err,
      requestN P fuel "/auth/refresh-token" "POST"
        (mkWorld (repeat (Responds unauthorized) k) lg)
      = Some (Throw err,
              mkWorld []
                (lg ++ repeat (EvFetch "/auth/refresh-token" "POST") (S k)
                 ++ concat
                      (repeat [EvLogout; EvFetch "/auth/logout" "POST"]
                              k))).
Proof.
  induction k as [|k IH]; intros fuel lg Hfuel;
    (destruct fuel as [|fuel]; [lia|]).
  - exists NetworkError. reflexivity.
  - exists sessionExpired. cbn [repeat].
    rewrite requestN_S, fetch_cons.
    cbn [unauthorized status Z.eqb Pos.eqb]. unfold refreshTokenVia.
    destruct (IH fuel (lg ++ [EvFetch "/auth/refresh-token" "POST"])
                 ltac:(lia)) as [err ->].
    rewrite logoutStarted_world. cbn [tl]. do 3 f_equal.
    exact (cascade_log lg (EvFetch "/auth/refresh-token" "POST") k _).
Qed.

(** X9: the refresh request goes through [request] too, so a 401 on it
    starts a refresh of its own, and nothing bounds the nesting but the
    answers of the remote side.  When the remote side answers 401 [n + 1]
    times and then no more, the request has fetched its endpoint once and
    the refresh endpoint [n + 1] times; then, from the innermost level
    out, [n + 1] levels each call logout, which fetches the logout
    endpoint; and the request throws the session-expired error. *)
Theorem unauthorized_cascade
        (endpoint method : string) (n : nat) (lg : list NetEvent) :
  request P endpoint method
    (mkWorld (repeat (Responds unauthorized) (S n)) lg)
  = Some (Throw sessionExpired,
          mkWorld []
            (lg ++ EvFetch endpoint method
                :: repeat (EvFetch "/auth/refresh-token" "POST") (S n)
                ++ concat
                     (repeat [EvLogout; EvFetch "/auth/logout" "POST"]
                             (S n)))).
Proof.
  unfold request. cbn [script]. rewrite repeat_length.
  cbn [repeat]. rewrite requestN_S, fetch_cons.
  cbn [unauthorized status Z.eqb Pos.eqb]. unfold refreshTokenVia.
  destruct (refresh_cascade n (S n) (lg ++ [EvFetch endpoint method])
              ltac:(lia)) as [err ->].
  rewrite logoutStarted_world. cbn [tl]. do 3 f_equal.
  exact (cascade_log lg (EvFetch endpoint method) n _).
Qed.

(** *** Uploads *)


End GatewayMore.

Section GatewayRuns.

Import JSString JS API.

Lemma request_without_retry_witness :
  request barePlatform "/hr/candidates/c1/telephonic" "POST"
    (mkWorld [Responds (mkResponse 500 (JsonBody (VObj [])))] [])
  = Some (Throw (Err (VStr "An error occurred") (Some 500%Z)),
          mkWorld [] [EvFetch "/hr/candidates/c1/telephonic" "POST"]).
Proof.
  destruct (request_without_retry barePlatform
              "/hr/candidates/c1/telephonic" "POST") as (H & _ & _).
  apply (H (mkResponse 500 (JsonBody (VObj []))) [] []). discriminate.
Defined.


End GatewayRuns.

(** ** More on the session *)

Section SessionMore.

Import JS Auth.

Variable P : Platform.

(** X11: [hasRole] with an array of roles answers [true] exactly when it
    answers [true] for one of them, so never for the empty array; and a
    user for whom [hasRole('admin')] holds has every permission. *)
Theorem hasRole_spec (st : State) :
  (forall roles : list string,
      fst (hasRole P (AnyRole roles) st) = Ok true <->
      exists r, In r roles /\ fst (hasRole P (OneRole r) st) = Ok true)
  /\ (fst (hasRole P (OneRole CONFIG.ROLES_ADMIN) st) = Ok true ->
      forall module action : string,
        fst (hasPermission P module action st) = Ok true).
Proof.
  unfold hasRole, hasPermission.
  destruct (getUser st) as [user st']. split.
  - intros roles. destruct (truthy user); cbn [negb fst].
    + destruct (get P user "role") as [userRole|e]; cbn [bind].
      * split.
        -- intros [= H]. apply existsb_exists in H as (r & Hin & Hr).
           exists r. split; [exact Hin|now rewrite Hr].
        -- intros (r & Hin & [= Hr]). f_equal. apply existsb_exists.
           now exists r.
      * split; [discriminate|]. intros (r & _ & H). discriminate.
    + split; [discriminate|]. intros (r & _ & H). discriminate.
  - destruct (truthy user); cbn [negb fst]; [|discriminate].
    destruct (get P user "role") as [userRole|e]; cbn [bind];
      [|discriminate].
    intros [= ->]. reflexivity.
Qed.

(** X12: once [getUser] has answered a user, it keeps answering that user
    whatever the stored item has become (the cache shadows the storage);
    and after [removeUser], as in logout, there is no user: [getUser]
    answers [null], and [hasPermission] and [hasRole] answer [false], for a
    former admin too. *)
Theorem session_cache_and_removal (st : State) (user : Value) :
  truthy user = true ->
  fst (getUser st) = user ->
  (forall stored : StoredUser,
      fst (getUser (mkState (currentUser (snd (getUser st))) stored)) = user)
  /\ fst (getUser (removeUser (snd (getUser st)))) = VNull
  /\ (forall module action : string,
         fst (hasPermission P module action (removeUser (snd (getUser st))))
         = Ok false)
  /\ (forall role : RoleArg,
         fst (hasRole P role (removeUser (snd (getUser st)))) = Ok false).
Proof.
  intros Htruthy Huser.
  assert (Hcached : currentUser (snd (getUser st)) = user).
  { unfold getUser in *. destruct (truthy (currentUser st));
      [exact Huser|].
    destruct (storedUser st); cbn in *; subst user;
      try discriminate; reflexivity. }
  rewrite Hcached. unfold removeUser, hasPermission, hasRole.
  repeat split.
  intros stored. unfold getUser. cbn. now rewrite Htruthy.
Qed.

End SessionMore.

Section SessionRuns.

Import JS Auth.

Lemma hasRole_spec_witness :
  let admin :=
    mkState VNull (Parsed (VObj [("role", VStr "admin")])) in
  fst (hasRole barePlatform (AnyRole ["hr"; "admin"]) admin) = Ok true
  /\ fst (hasPermission barePlatform "candidates" "delete" admin) = Ok true.
Proof.
  intros admin.
  destruct (hasRole_spec barePlatform admin) as [Hany Hadmin].
  split.
  - apply Hany. exists "admin". split; [right; now left|reflexivity].
  - apply Hadmin. reflexivity.
Defined.

Lemma session_cache_and_removal_witness :
  let admin := VObj [("role", VStr "admin")] in
  let st := mkState VNull (Parsed admin) in
  fst (getUser (mkState (currentUser (snd (getUser st))) Absent)) = admin
  /\ fst (hasPermission barePlatform "candidates" "view"
            (removeUser (snd (getUser st)))) = Ok false.
Proof.
  intros admin st.
  destruct (session_cache_and_removal barePlatform st admin
              eq_refl eq_refl) as (Hcache & _ & Hperm & _).
  split; [apply Hcache|apply Hperm].
Defined.

End SessionRuns.

(** ** More on the utilities *)

Section UtilsMore.

Import JSString Utils.

(** *** Phone numbers *)

Lemma keep_app (p : ascii -> bool) (s t : string) :
  keep p (s ++ t) = (keep p s ++ keep p t)%string.
Proof.
  induction s as [|c s IH]; [reflexivity|].
  cbn. destruct (p c); cbn; now rewrite IH.
Qed.

Lemma all_keep (p : ascii -> bool) (s : string) : all p (keep p s) = true.
Proof.
  induction s as [|c s IH]; [reflexivity|].
  cbn. destruct (p c) eqn:Hc; [|exact IH]. cbn. now rewrite Hc.
Qed.

Lemma keep_all (p : ascii -> bool) (s : string) :
  all p s = true -> keep p s = s.
Proof.
  induction s as [|c s IH]; [reflexivity|].
  cbn. rewrite andb_true_iff. intros [-> Hs]. now rewrite IH.
Qed.

Lemma keep_idempotent (p : ascii -> bool) (s : string) :
  keep p (keep p s) = keep p s.
Proof. apply keep_all, all_keep. Qed.

Lemma take_drop (n : nat) (s : string) : (take n s ++ drop n s)%string = s.
Proof.
  revert s. induction n as [|n IH]; intros [|c s]; cbn; try reflexivity.
  now rewrite IH.
Qed.

Lemma length_append (s t : string) :
  String.length (s ++ t) = String.length s + String.length t.
Proof. induction s as [|c s IH]; cbn; [reflexivity|now rewrite IH]. Qed.

Lemma take_length (n : nat) (s : string) :
  String.length (take n s) = Nat.min n (String.length s).
Proof.
  revert s. induction n as [|n IH]; intros [|c s]; cbn; try reflexivity.
  now rewrite IH.
Qed.

Lemma drop_length (n : nat) (s : string) :
  String.length (drop n s) = String.length s - n.
Proof.
  revert s. induction n as [|n IH]; intros [|c s]; cbn; try reflexivity.
  now rewrite IH.
Qed.

Lemma formatted_digits (cleaned : string) :
  all isDigit cleaned = true ->
  keep isDigit (take 5 cleaned ++ "-" ++ drop 5 cleaned) = cleaned.
Proof.
  intros Hall.
  rewrite keep_app, (keep_app isDigit "-" (drop 5 cleaned)).
  change (keep isDigit "-") with EmptyString. cbn [append].
  now rewrite <- keep_app, take_drop, keep_all.
Qed.

Lemma formatted_not_empty (a b : string) :
  isEmpty (a ++ "-" ++ b) = false.
Proof. destruct a; reflexivity. Qed.

(** X13: formatting a phone number never changes its digits, so the
    validity of the number is the same before and after; formatting twice
    is formatting once; and a number with exactly ten digits comes out as
    eleven characters, five digits, a hyphen, five digits, whatever else it
    held. *)
Theorem formatPhone_stable (phone : string) :
  keep isDigit (formatPhone phone) = keep isDigit phone
  /\ isValidPhone (formatPhone phone) = isValidPhone phone
  /\ formatPhone (formatPhone phone) = formatPhone phone
  /\ (String.length (keep isDigit phone) = 10 ->
      formatPhone phone
      = (take 5 (keep isDigit phone) ++ "-"
         ++ drop 5 (keep isDigit phone))%string
      /\ String.length (formatPhone phone) = 11).
Proof.
  assert (Hdigits : keep isDigit (formatPhone phone) = keep isDigit phone).
  { unfold formatPhone. destruct phone as [|c phone]; [reflexivity|].
    cbn [isEmpty].
    destruct (String.length (keep isDigit (String c phone)) =? 10)%nat;
      [|reflexivity].
    apply formatted_digits, all_keep. }
  split; [exact Hdigits|].
  split; [unfold isValidPhone; now rewrite Hdigits|].
  split.
  - unfold formatPhone at 1. rewrite Hdigits.
    unfold formatPhone. destruct phone as [|c phone]; [reflexivity|].
    cbn [isEmpty].
    destruct (String.length (keep isDigit (String c phone)) =? 10)%nat
      eqn:Hlen.
    + now rewrite formatted_not_empty.
    + reflexivity.
  - intros Hlen. unfold formatPhone.
    destruct phone as [|c phone]; [discriminate|]. cbn [isEmpty].
    rewrite Hlen. cbn [Nat.eqb]. split; [reflexivity|].
    rewrite !length_append, take_length, drop_length, Hlen. reflexivity.
Qed.

Lemma formatPhone_stable_witness :
  formatPhone "(98765) 43210" = "98765-43210"
  /\ String.length (formatPhone "(98765) 43210") = 11.
Proof.
  destruct (formatPhone_stable "(98765) 43210") as (_ & _ & _ & H).
  apply H. reflexivity.
Defined.

(** *** Table filter *)

(** X14: [filterTable] keeps a row displayed exactly when one of the cells
    it searches (all of them when no column is given, else those of the
    given columns that exist) holds the search term up to letter case; a
    row without any cell is hidden, by the empty term too. *)
Theorem filterTable_spec
        (searchTerm : string) (columnIndices : list nat)
        (rows : list (list string)) :
  length (filterTable searchTerm columnIndices rows) = length rows
  /\ (forall (i : nat) (cells : list string),
         nth_error rows i = Some cells ->
         exists shown,
           nth_error (filterTable searchTerm columnIndices rows) i
           = Some shown
           /\ (shown = true <->
               exists cell,
                 match columnIndices with
                 | [] => In cell cells
                 | _ => exists index,
                          In index columnIndices
                          /\ nth_error cells index = Some cell
                 end
                 /\ ciSubstring searchTerm cell))
  /\ rowFound (toLowerCase searchTerm) columnIndices [] = false.
Proof.
  unfold filterTable. split; [apply length_map|]. split.
  - intros i cells Hrow. eexists. split.
    + rewrite nth_error_map, Hrow. reflexivity.
    + unfold rowFound. destruct columnIndices as [|index0 indices];
        cbn [length Nat.eqb]; rewrite existsb_exists.
      * split.
        -- intros (cell & Hin & H). exists cell.
           split; [exact Hin|now apply includes_lower_ci].
        -- intros (cell & Hin & H). exists cell.
           split; [exact Hin|now apply includes_lower_ci].
      * split.
        -- intros (index & Hin & H).
           destruct (nth_error cells index) as [cell|] eqn:Hcell;
             [|discriminate].
           exists cell. split; [now exists index|].
           now apply includes_lower_ci.
        -- intros (cell & (index & Hin & Hcell) & H). exists index.
           split; [exact Hin|]. rewrite Hcell.
           now apply includes_lower_ci.
  - unfold rowFound. destruct columnIndices as [|index0 indices];
      [reflexivity|].
    cbn [length Nat.eqb]. apply not_true_is_false. rewrite existsb_exists.
    intros (index & _ & H). now destruct index.
Qed.

Lemma filterTable_spec_witness :
  nth_error (filterTable "JANE" [] [["Jane Doe"; "CRM"]; []]) 0 = Some true
  /\ nth_error (filterTable "" [] [["Jane Doe"; "CRM"]; []]) 1 = Some false.
Proof.
  destruct (filterTable_spec "JANE" [] [["Jane Doe"; "CRM"]; []])
    as (_ & H & _).
  destruct (H 0 ["Jane Doe"; "CRM"] eq_refl) as (shown & Hnth & Hshown).
  split; [|reflexivity].
  rewrite Hnth. f_equal. apply Hshown. exists "Jane Doe".
  split; [now left|]. exists "", "Jane", " Doe". now split.
Defined.

(** *** Slugs *)

Lemma lowered_kept (c : ascii) :
  slugKept (lowerChar c) = true ->
  slugSeparator (lowerChar c) || slugChar (lowerChar c) = true.
Proof.
  destruct c as [[|] [|] [|] [|] [|] [|] [|] [|]]; vm_compute;
    intros H; try reflexivity; discriminate H.
Qed.

Lemma slugChar_facts (c : ascii) :
  slugChar c = true ->
  lowerChar c = c /\ slugKept c = true /\ slugSeparator c = isHyphen c.
Proof.
  destruct c as [[|] [|] [|] [|] [|] [|] [|] [|]]; vm_compute;
    intros H; try discriminate H; repeat split.
Qed.

Lemma isHyphen_eq (c : ascii) : isHyphen c = true -> c = "-"%char.
Proof. apply Ascii.eqb_eq. Qed.

Lemma separator_not_hyphen (c : ascii) :
  slugSeparator c = false -> isHyphen c = false.
Proof.
  unfold slugSeparator, isHyphen. rewrite !orb_false_iff. tauto.
Qed.

Lemma lowered_kept_all (text : string) :
  all (fun c => slugSeparator c || slugChar c)
      (keep slugKept (toLowerCase text)) = true.
Proof.
  induction text as [|c text IH]; [reflexivity|].
  cbn [toLowerCase keep].
  destruct (slugKept (lowerChar c)) eqn:Hc; [|exact IH].
  cbn [all]. now rewrite (lowered_kept c Hc), IH.
Qed.

Lemma collapseRuns_chars (s : string) :
  all (fun c => slugSeparator c || slugChar c) s = true ->
  forall inRun, all slugChar (collapseRuns inRun s) = true.
Proof.
  induction s as [|c s IH]; [reflexivity|].
  cbn [all collapseRuns]. rewrite andb_true_iff. intros [Hc Hs] inRun.
  destruct (slugSeparator c) eqn:Hsep.
  - destruct inRun; [now apply IH|]. cbn [all]. now rewrite IH.
  - cbn [orb] in Hc. cbn [all]. now rewrite Hc, IH.
Qed.

Lemma noDoubleHyphen_cons (a : ascii) (s : string) :
  noDoubleHyphen (String a s)
  = negb (isHyphen a && startsWithHyphen s) && noDoubleHyphen s.
Proof.
  destruct s as [|b s]; [|reflexivity].
  cbn. now rewrite andb_false_r.
Qed.

Lemma collapseRuns_shape (s : string) :
  noDoubleHyphen (collapseRuns false s) = true
  /\ noDoubleHyphen (collapseRuns true s) = true
  /\ startsWithHyphen (collapseRuns true s) = false.
Proof.
  induction s as [|c s (IHf & IHt & IHs)]; [now repeat split|].
  cbn [collapseRuns]. destruct (slugSeparator c) eqn:Hsep.
  - repeat split; try assumption.
    rewrite noDoubleHyphen_cons, IHs, IHt. now rewrite andb_false_r.
  - apply separator_not_hyphen in Hsep.
    rewrite noDoubleHyphen_cons, Hsep, IHf. cbn. now repeat split.
Qed.

Lemma all_dropLeading (p q : ascii -> bool) (s : string) :
  all p s = true -> all p (dropLeading q s) = true.
Proof.
  induction s as [|c s IH]; [reflexivity|].
  cbn [dropLeading]. destruct (q c); [|auto].
  cbn. rewrite andb_true_iff. intros [_ H]. auto.
Qed.

Lemma all_dropTrailing (p q : ascii -> bool) (s : string) :
  all p s = true -> all p (dropTrailing q s) = true.
Proof.
  induction s as [|c s IH]; [reflexivity|].
  cbn [dropTrailing all]. rewrite andb_true_iff. intros [Hc Hs].
  destruct (q c && isEmpty (dropTrailing q s)); [reflexivity|].
  cbn. now rewrite Hc, IH.
Qed.

Lemma noDoubleHyphen_tail (c : ascii) (s : string) :
  noDoubleHyphen (String c s) = true -> noDoubleHyphen s = true.
Proof. rewrite noDoubleHyphen_cons, andb_true_iff. tauto. Qed.

Lemma noDoubleHyphen_dropLeading (q : ascii -> bool) (s : string) :
  noDoubleHyphen s = true -> noDoubleHyphen (dropLeading q s) = true.
Proof.
  induction s as [|c s IH]; [reflexivity|].
  cbn [dropLeading]. destruct (q c); [|auto].
  intros H. apply IH. eapply noDoubleHyphen_tail, H.
Qed.

Lemma dropTrailing_head (q : ascii -> bool) (s : string) :
  startsWithHyphen (dropTrailing q s) = true -> startsWithHyphen s = true.
Proof.
  destruct s as [|c s]; [discriminate|]. cbn [dropTrailing].
  destruct (q c && isEmpty (dropTrailing q s)); [discriminate|].
  exact (fun H => H).
Qed.

Lemma noDoubleHyphen_dropTrailing (q : ascii -> bool) (s : string) :
  noDoubleHyphen s = true -> noDoubleHyphen (dropTrailing q s) = true.
Proof.
  induction s as [|c s IH]; [reflexivity|].
  rewrite noDoubleHyphen_cons, andb_true_iff. intros [Hc Hs].
  cbn [dropTrailing].
  destruct (q c && isEmpty (dropTrailing q s)); [reflexivity|].
  rewrite noDoubleHyphen_cons, (IH Hs), andb_true_r.
  destruct (isHyphen c); [|reflexivity]. cbn [andb negb] in *.
  destruct (startsWithHyphen (dropTrailing q s)) eqn:Hhead; [|reflexivity].
  apply dropTrailing_head in Hhead. now rewrite Hhead in Hc.
Qed.

Lemma dropLeading_head (s : string) :
  startsWithHyphen (dropLeading isHyphen s) = false.
Proof.
  induction s as [|c s IH]; [reflexivity|].
  cbn [dropLeading]. destruct (isHyphen c) eqn:Hc; [exact IH|exact Hc].
Qed.

Lemma dropTrailing_last (s : string) :
  endsWithHyphen (dropTrailing isHyphen s) = false.
Proof.
  induction s as [|c s IH]; [reflexivity|].
  cbn [dropTrailing].
  destruct (isHyphen c && isEmpty (dropTrailing isHyphen s)) eqn:Hcut;
    [reflexivity|].
  destruct (dropTrailing isHyphen s) as [|d r] eqn:Hrest.
  - cbn in *. now rewrite andb_true_r in Hcut.
  - exact IH.
Qed.

Lemma collapseRuns_slug (s : string) :
  all slugChar s = true ->
  noDoubleHyphen s = true ->
  forall inRun,
    (inRun = true -> startsWithHyphen s = false) ->
    collapseRuns inRun s = s.
Proof.
  induction s as [|c s IH]; [reflexivity|].
  cbn [all]. rewrite andb_true_iff, noDoubleHyphen_cons, andb_true_iff.
  intros [Hc Hs] [Hcs Hnd] inRun Hrun. cbn [collapseRuns].
  destruct (slugChar_facts c Hc) as (_ & _ & ->).
  destruct (isHyphen c) eqn:Hh.
  - destruct inRun; [now specialize (Hrun eq_refl); cbn in Hrun; congruence|].
    apply isHyphen_eq in Hh as ->. f_equal. apply IH; try assumption.
    intros _. cbn in Hcs. now apply negb_true_iff in Hcs.
  - f_equal. apply IH; try assumption. discriminate.
Qed.

Lemma dropLeading_slug (s : string) :
  startsWithHyphen s = false -> dropLeading isHyphen s = s.
Proof. destruct s as [|c s]; [reflexivity|]. cbn. now intros ->. Qed.

Lemma dropTrailing_slug (s : string) :
  endsWithHyphen s = false -> dropTrailing isHyphen s = s.
Proof.
  induction s as [|c s IH]; [reflexivity|].
  destruct s as [|d s].
  - cbn. now intros ->.
  - intros H.
    change (dropTrailing isHyphen (String c (String d s)))
      with (if isHyphen c && isEmpty (dropTrailing isHyphen (String d s))
            then EmptyString
            else String c (dropTrailing isHyphen (String d s))).
    rewrite IH by exact H. cbn [isEmpty]. now rewrite andb_false_r.
Qed.

Lemma isSlug_parts (s : string) :
  isSlug s = true <->
  all slugChar s = true /\ startsWithHyphen s = false
  /\ endsWithHyphen s = false /\ noDoubleHyphen s = true.
Proof.
  unfold isSlug. rewrite !andb_true_iff, !negb_true_iff. tauto.
Qed.

(** X15: what [slugify] returns is always a slug: small letters, digits
    and hyphens only, no hyphen first or last, no two hyphens in a row; a
    slug is returned as it is; hence slugifying twice is slugifying
    once. *)
Theorem slugify_slug (text : string) :
  isSlug (slugify text) = true
  /\ (isSlug text = true -> slugify text = text)
  /\ slugify (slugify text) = slugify text.
Proof.
  assert (Hfix : forall s, isSlug s = true -> slugify s = s).
  { intros s Hs. apply isSlug_parts in Hs as (Hall & Hhead & Hlast & Hnd).
    unfold slugify. destruct (isEmpty s) eqn:He;
      [now destruct s|].
    assert (Hlow : toLowerCase s = s).
    { clear -Hall. induction s as [|c s IH]; [reflexivity|].
      cbn in *. apply andb_true_iff in Hall as [Hc Hs].
      destruct (slugChar_facts c Hc) as (-> & _). now rewrite IH. }
    assert (Hkeep : keep slugKept s = s).
    { apply keep_all. eapply all_impl; [|exact Hall].
      intros c Hc. now destruct (slugChar_facts c Hc) as (_ & -> & _). }
    rewrite Hlow, Hkeep, (collapseRuns_slug s Hall Hnd false)
      by discriminate.
    now rewrite (dropLeading_slug s Hhead), (dropTrailing_slug s Hlast). }
  assert (Hslug : isSlug (slugify text) = true).
  { unfold slugify. destruct (isEmpty text); [reflexivity|].
    pose proof (lowered_kept_all text) as Hchars.
    pose proof (collapseRuns_chars _ Hchars false) as Hall.
    destruct (collapseRuns_shape (keep slugKept (toLowerCase text)))
      as (Hnd & _ & _).
    apply isSlug_parts. repeat split.
    - now apply all_dropTrailing, all_dropLeading.
    - destruct (startsWithHyphen (dropTrailing isHyphen _)) eqn:Hhead;
        [|reflexivity].
      apply dropTrailing_head in Hhead. now rewrite dropLeading_head in Hhead.
    - apply dropTrailing_last.
    - now apply noDoubleHyphen_dropTrailing, noDoubleHyphen_dropLeading. }
  split; [exact Hslug|]. split; [apply Hfix|now apply Hfix].
Qed.

Lemma slugify_slug_witness :
  slugify "  Sr. Accountant -- (Tally_ERP)  " = "sr-accountant-tally-erp"
  /\ slugify "sr-accountant-tally-erp" = "sr-accountant-tally-erp".
Proof.
  split; [reflexivity|].
  destruct (slugify_slug "sr-accountant-tally-erp") as (_ & Hfix & _).
  apply Hfix. reflexivity.
Defined.

(** *** Thousands separators *)

Lemma digitRun_digits (s : string) :
  all isDigit s = true -> digitRun s = String.length s.
Proof.
  induction s as [|c s IH]; [reflexivity|].
  cbn. rewrite andb_true_iff. intros [-> Hs]. now rewrite IH.
Qed.

Lemma digitRun_app_digits (a t : string) :
  all isDigit a = true -> digitRun (a ++ t) = String.length a + digitRun t.
Proof.
  induction a as [|c a IH]; [reflexivity|].
  cbn. rewrite andb_true_iff. intros [-> Ha]. now rewrite IH.
Qed.

Lemma digit_isWord (c : ascii) : isDigit c = true -> isWord c = true.
Proof. unfold isWord. intros ->. now rewrite orb_true_r. Qed.

Lemma groupThousands_cons (prev : option ascii) (c : ascii) (r : string) :
  groupThousands prev (String c r)
  = if commaHere prev (String c r)
    then String "," (String c (groupThousands (Some c) r))
    else String c (groupThousands (Some c) r).
Proof. reflexivity. Qed.

(** Only whether the character before is a word character matters. *)
Lemma groupThousands_prev (prev prev' : option ascii) (s : string) :
  match prev with Some p => isWord p | None => false end
  = match prev' with Some p => isWord p | None => false end ->
  groupThousands prev s = groupThousands prev' s.
Proof.
  intros H. destruct s as [|c r]; [reflexivity|].
  rewrite !groupThousands_cons. unfold commaHere. now rewrite H.
Qed.

(** At most two digits: no comma, whatever comes before. *)
Lemma groupThousands_two (prev : option ascii) (s : string) :
  all isDigit s = true -> String.length s <= 2 ->
  groupThousands prev s = s.
Proof.
  revert prev. induction s as [|c s IH]; intros prev Hall Hlen;
    [reflexivity|].
  rewrite groupThousands_cons. unfold commaHere.
  rewrite (digitRun_digits _ Hall).
  cbn in Hall. apply andb_true_iff in Hall as [_ Hs]. cbn in Hlen.
  replace (3 <=? String.length (String c s))%nat with false
    by (symmetry; apply Nat.leb_gt; cbn; lia).
  rewrite andb_false_r. cbn [andb]. f_equal. apply IH; [exact Hs|lia].
Qed.

(** At most three digits after something that is not a word character:
    no comma. *)
Lemma groupThousands_short (prev : option ascii) (s : string) :
  match prev with Some p => isWord p | None => false end = false ->
  all isDigit s = true -> String.length s <= 3 ->
  groupThousands prev s = s.
Proof.
  intros Hprev Hall Hlen. destruct s as [|c s]; [reflexivity|].
  rewrite groupThousands_cons. unfold commaHere. rewrite Hprev.
  cbn [andb]. f_equal. cbn in Hall, Hlen.
  apply andb_true_iff in Hall as [_ Hs].
  apply groupThousands_two; [exact Hs|lia].
Qed.

(** Three digits after a word character: a comma, then the digits. *)
Lemma groupThousands_three (p : ascii) (b : string) :
  isWord p = true -> all isDigit b = true -> String.length b = 3 ->
  groupThousands (Some p) b = String "," b.
Proof.
  intros Hp Hall Hlen. destruct b as [|c b]; [discriminate|].
  rewrite groupThousands_cons. unfold commaHere.
  rewrite Hp, (digitRun_digits _ Hall), Hlen.
  change (true && (3 <=? 3)%nat && (3 mod 3 =? 0)%nat) with true.
  cbv iota. do 2 f_equal.
  cbn in Hall, Hlen. apply andb_true_iff in Hall as [_ Hb].
  apply groupThousands_two; [exact Hb|lia].
Qed.

Lemma group_condition (L : nat) :
  1 <= L ->
  ((3 <=? L + 3) && ((L + 3) mod 3 =? 0))%nat
  = ((3 <=? L) && (L mod 3 =? 0))%nat.
Proof.
  intros HL.
  replace ((L + 3) mod 3) with (L mod 3)
    by (replace (L + 3) with (L + 1 * 3) by lia;
        symmetry; apply Nat.Div0.mod_add).
  destruct (Nat.leb_spec 3 (L + 3)); [|lia].
  destruct (Nat.leb_spec 3 L); [reflexivity|].
  cbn [andb]. apply Nat.eqb_neq.
  rewrite Nat.mod_small by lia. lia.
Qed.

(** A last group of three digits is set off by a comma, and what comes
    before is grouped as if it stood alone. *)
Lemma groupThousands_last_group (a b : string) :
  all isDigit a = true -> a <> EmptyString ->
  all isDigit b = true -> String.length b = 3 ->
  forall prev,
    groupThousands prev (a ++ b)
    = (groupThousands prev a ++ String "," b)%string.
Proof.
  intros Ha Hne Hb Hlen. induction a as [|c a IH]; [contradiction|].
  intros prev. cbn [append]. rewrite !groupThousands_cons.
  assert (Hcomma : commaHere prev (String c (a ++ b))
                   = commaHere prev (String c a)).
  { unfold commaHere.
    change (String c (a ++ b)) with (String c a ++ b)%string.
    rewrite (digitRun_app_digits _ _ Ha), (digitRun_digits _ Hb),
      (digitRun_digits _ Ha), Hlen, <- !andb_assoc.
    f_equal. apply group_condition. cbn. lia. }
  rewrite Hcomma. cbn in Ha. apply andb_true_iff in Ha as [Hc Ha].
  assert (Hrest : groupThousands (Some c) (a ++ b)
                  = (groupThousands (Some c) a ++ String "," b)%string).
  { destruct a as [|d a].
    - cbn [append groupThousands].
      apply groupThousands_three; [now apply digit_isWord|exact Hb|exact Hlen].
    - apply IH; [exact Ha|discriminate]. }
  rewrite Hrest. destruct (commaHere prev (String c a)); reflexivity.
Qed.

Lemma all_take (p : ascii -> bool) (n : nat) (s : string) :
  all p s = true -> all p (take n s) = true.
Proof.
  revert s. induction n as [|n IH]; intros [|c s]; cbn; try reflexivity.
  rewrite !andb_true_iff. intros [Hc Hs]. auto.
Qed.

Lemma all_drop (p : ascii -> bool) (n : nat) (s : string) :
  all p s = true -> all p (drop n s) = true.
Proof.
  revert s. induction n as [|n IH]; intros [|c s]; cbn; try reflexivity;
    try (intros H; exact H).
  rewrite !andb_true_iff. intros [Hc Hs]. auto.
Qed.

(** The scan from the left puts the commas where counting groups of three
    from the right puts them. *)
Lemma groupThousands_from_right (fuel : nat) :
  forall (prev : option ascii) (s : string),
    match prev with Some p => isWord p | None => false end = false ->
    all isDigit s = true ->
    String.length s <= 3 * fuel + 3 ->
    groupThousands prev s = groupsFromRight fuel s.
Proof.
  induction fuel as [|fuel IH]; intros prev s Hprev Hall Hlen.
  - cbn [groupsFromRight]. apply groupThousands_short; [exact Hprev|exact Hall|lia].
  - cbn [groupsFromRight].
    destruct (Nat.leb_spec (String.length s) 3) as [Hshort|Hlong].
    + now apply groupThousands_short.
    + rewrite <- (take_drop (String.length s - 3) s) at 1.
      rewrite groupThousands_last_group.
      * rewrite (IH prev (take (String.length s - 3) s));
          [reflexivity|exact Hprev|now apply all_take|].
        rewrite take_length. lia.
      * now apply all_take.
      * intros H. apply (f_equal String.length) in H.
        rewrite take_length in H. cbn in H. lia.
      * now apply all_drop.
      * rewrite drop_length. lia.
Qed.

Lemma groupThousands_point (a t : string) :
  all isDigit a = true ->
  forall prev,
    groupThousands prev (a ++ String "." t)
    = (groupThousands prev a ++ String "." (groupThousands None t))%string.
Proof.
  intros Ha. induction a as [|c a IH]; intros prev.
  - cbn [append]. rewrite groupThousands_cons. unfold commaHere.
    cbn [digitRun]. change (isDigit ".") with false. cbn [Nat.leb].
    rewrite andb_false_r. cbn [andb groupThousands append]. f_equal.
    now apply groupThousands_prev.
  - cbn [append]. rewrite !groupThousands_cons.
    assert (Hcomma : commaHere prev (String c (a ++ String "." t))
                     = commaHere prev (String c a)).
    { unfold commaHere. f_equal; [f_equal|];
        change (String c (a ++ String "." t))
          with (String c a ++ String "." t)%string;
        rewrite (digitRun_app_digits _ _ Ha), (digitRun_digits _ Ha);
        cbn [digitRun]; change (isDigit ".") with false;
        now rewrite Nat.add_0_r. }
    rewrite Hcomma. cbn in Ha. apply andb_true_iff in Ha as [_ Ha].
    rewrite (IH Ha). destruct (commaHere prev (String c a)); reflexivity.
Qed.

Lemma uint_digits (d : Decimal.uint) :
  all isDigit (NilEmpty.string_of_uint d) = true.
Proof. induction d; cbn; try reflexivity; exact IHd. Qed.

Lemma nilzero_digits (d : Decimal.uint) :
  all isDigit (NilZero.string_of_uint d) = true.
Proof. destruct d; try reflexivity; apply (uint_digits (_ d)). Qed.

(** X16: [formatNumber] groups the digits of a safe integer (below 2^53
    in magnitude) in threes counted from the right, after the minus sign
    if there is one; given a text with a decimal point it groups the
    digits after the point in the same way as those before it (1234.5678
    gives 1,234.5,678); and [null] and [undefined] give the empty text. *)
Theorem formatNumber_groups :
  (forall (n : Z) (safe : isSafeInteger n = true),
      exists digits,
        decimal (Z.abs n) = digits
        /\ all isDigit digits = true
        /\ formatNumber (SNum n safe)
           = ((if (n <? 0)%Z then "-" else "")
              ++ groupsFromRight (String.length digits) digits)%string)
  /\ (forall a b : string,
         all isDigit a = true -> all isDigit b = true ->
         formatNumber (SStr (a ++ "." ++ b))
         = (groupsFromRight (String.length a) a ++ "."
            ++ groupsFromRight (String.length b) b)%string)
  /\ formatNumber SNull = EmptyString
  /\ formatNumber SUndefined = EmptyString.
Proof.
  split; [|split; [|split; reflexivity]].
  - intros n safe. eexists. split; [reflexivity|].
    unfold formatNumber, toText, decimal. clear safe.
    destruct n as [|p|p]; cbn [Z.abs Z.ltb Z.compare Z.to_int].
    + split; reflexivity.
    + cbn [NilZero.string_of_int].
      pose proof (nilzero_digits (Pos.to_uint p)) as Hd.
      split; [exact Hd|]. cbn [append].
      apply groupThousands_from_right; [reflexivity|exact Hd|lia].
    + cbn [NilZero.string_of_int].
      pose proof (nilzero_digits (Pos.to_uint p)) as Hd.
      split; [exact Hd|]. cbn [append]. rewrite groupThousands_cons.
      unfold commaHere. cbn [andb]. f_equal.
      apply groupThousands_from_right; [reflexivity|exact Hd|lia].
  - intros a b Ha Hb. unfold formatNumber, toText. cbn [append].
    rewrite (groupThousands_point a b Ha None).
    rewrite (groupThousands_from_right (String.length a) None a),
      (groupThousands_from_right (String.length b) None b);
      try reflexivity; try assumption; lia.
Qed.

Lemma formatNumber_groups_witness :
  isSafeInteger (-1234567) = true
  /\ formatNumber (SNum (-1234567) eq_refl) = "-1,234,567"
  /\ formatNumber (SStr ("1234" ++ "." ++ "5678")) = "1,234.5,678".
Proof.
  destruct formatNumber_groups as (Hint & Hpoint & _).
  split; [reflexivity|]. split.
  - destruct (Hint (-1234567)%Z eq_refl) as (digits & <- & _ & ->).
    reflexivity.
  - rewrite (Hpoint "1234" "5678" eq_refl eq_refl). reflexivity.
Defined.

End UtilsMore.

(** ** Pages, stages and the buttons of a row *)

Section Pages.

Import JSString HR.
Local Open Scope hr_scope.

Lemma loadCandidatesByStage_stage (stage : string) (w : World) :
  currentStage (state (run (loadCandidatesByStage stage) w))
  = currentStage (state w).
Proof.
  destruct w as [s ms r t]. unfold loadCandidatesByStage. hr_unfold.
  destruct r as [|[|data] r]; reflexivity.
Qed.







End Pages.

(** ** Form data *)

Section FormData.

Import JS Forms.

Lemma own_setProp (props : list (string * Value)) (k k' : string)
      (v : Value) :
  own (setProp props k v) k'
  = if String.eqb k k' then Some v else own props k'.
Proof.
  induction props as [|[k0 v0] props IH]; cbn [setProp own].
  - reflexivity.
  - destruct (String.eqb_spec k0 k) as [->|Hne]; cbn [own].
    + destruct (String.eqb k k'); reflexivity.
    + rewrite IH. destruct (String.eqb_spec k0 k') as [->|];
        [|reflexivity].
      destruct (String.eqb_spec k k'); [congruence|reflexivity].
Qed.

Lemma getObj_setProp (props : list (string * Value)) (k k' : string)
      (v : Value) :
  getObj (setProp props k v) k'
  = if String.eqb k k' then v else getObj props k'.
Proof.
  unfold getObj. rewrite own_setProp. now destruct (String.eqb k k').
Qed.

(** The field [k] is built from its own values alone. *)
Lemma getObj_entries (k : string) (entries : list (string * string)) :
  forall data,
    getObj (fold_left addEntry entries data) k
    = fold_left appendValue (valuesOf k entries) (getObj data k).
Proof.
  induction entries as [|[k0 v0] entries IH]; intros data; [reflexivity|].
  cbn [fold_left]. rewrite IH. unfold addEntry at 1. cbn [fst snd].
  rewrite getObj_setProp. unfold valuesOf. cbn [filter fst].
  destruct (String.eqb_spec k0 k) as [->|]; reflexivity.
Qed.

Lemma append_to_array (vs : list string) :
  forall items,
    fold_left appendValue vs (VArr items) = VArr (items ++ map VStr vs).
Proof.
  induction vs as [|v vs IH]; intros items; cbn [fold_left map].
  - now rewrite app_nil_r.
  - unfold appendValue at 2. cbn [truthy]. rewrite IH, <- app_assoc.
    reflexivity.
Qed.

Lemma append_to_text (s : string) (vs : list string) :
  JSString.isEmpty s = false ->
  fold_left appendValue vs (VStr s)
  = match vs with
    | [] => VStr s
    | _ => VArr (VStr s :: map VStr vs)
    end.
Proof.
  intros Hs. destruct vs as [|v vs]; [reflexivity|].
  cbn [fold_left]. unfold appendValue at 2. cbn [truthy]. rewrite Hs.
  cbn [negb]. now rewrite append_to_array.
Qed.

Lemma append_from_nothing (vs : list string) (cur : Value) :
  truthy cur = false ->
  vs <> [] ->
  fold_left appendValue vs cur = collected vs.
Proof.
  revert cur. induction vs as [|v vs IH]; intros cur Hcur Hne;
    [contradiction|].
  cbn [fold_left]. unfold appendValue at 2. rewrite Hcur.
  unfold collected. cbn [dropEmpties].
  destruct (JSString.isEmpty v) eqn:Hv.
  - destruct v; [|discriminate]. destruct vs as [|v' vs].
    + reflexivity.
    + rewrite (IH (VStr EmptyString)) by (reflexivity || discriminate).
      reflexivity.
  - rewrite (append_to_text v vs Hv). destruct vs; reflexivity.
Qed.

(** X19: in the object [getFormData] builds, a field whose name is not a
    member of [Object.prototype] holds: nothing when the form has no such
    field; its value when it occurs once; and when it occurs several
    times, the array of its values in order, except that empty values
    standing before the first non-empty one are lost (so that a first
    empty value followed by one other value gives that value alone, not an
    array). *)
Theorem getFormData_field
        (entries : list (string * string)) (data : list (string * Value))
        (k : string) :
  getFormData entries = Some data ->
  inObjectPrototype k = false ->
  getObj data k = collected (valuesOf k entries).
Proof.
  unfold getFormData.
  destruct (existsb _ entries); [discriminate|]. intros [= <-] Hk.
  rewrite getObj_entries.
  assert (Hempty : getObj [] k = VUndefined)
    by (unfold getObj; cbn [own]; now rewrite Hk).
  rewrite Hempty.
  destruct (valuesOf k entries) as [|v vs] eqn:Hvs; [reflexivity|].
  apply append_from_nothing; [reflexivity|discriminate].
Qed.

Lemma getFormData_field_witness :
  getObj
    (fold_left addEntry
       [("skills", ""); ("status", "Pending"); ("skills", "Excel");
        ("skills", ""); ("skills", "Tally")] [])
    "skills"
  = VArr [VStr "Excel"; VStr ""; VStr "Tally"].
Proof.
  exact (getFormData_field
           [("skills", ""); ("status", "Pending"); ("skills", "Excel");
            ("skills", ""); ("skills", "Tally")]
           _ "skills" eq_refl eq_refl).
Defined.

End FormData.
